(** * stm32ctl: the bootloader protocol engine, embedded in Rocq

    A shallow embedding of [stm32ctl/connection.py] (framing, checksum,
    ACK/NACK, the wire commands) and of [stm32ctl/client.py] (capability
    gating, chunked read and write, device info), followed by the
    properties of the specification proved about it.

    Conventions of the embedding:
    - a Python [int] is a [Z]; a byte string or an iterable of ints is a
      [list Z]; [bytes(...)] is the range check [to_bytes];
    - [async]/[await] is sequential composition: every coroutine awaits
      its callee at once, so a call is a step of a state-and-exception
      monad over the serial link;
    - [mlog.debug] has no effect on the link and is left out;
    - a [raise] is the outcome [Raised e], with [e] the Python exception
      class and its message. *)

From stdpp Require Import base gmap sets list strings pretty.
From Stdlib Require Import ZArith Lia Sorted.

Open Scope Z_scope.

(** ** Python exceptions and outcomes *)

Inductive exn : Type :=
| Exception (msg : string)
| ValueError (msg : string)
| NotImplementedError
| StructError
| IndexError
| ConnectionError.

(** The outcome of running a coroutine: it returns, it raises, or the
    bounded unrolling of one of its [while] loops was too short
    ([OutOfFuel], shown unreachable for the loops of the client). *)
Inductive outcome (A : Type) : Type :=
| Returned (a : A)
| Raised (e : exn)
| OutOfFuel.

Arguments Returned {A} a.
Arguments Raised {A} e.
Arguments OutOfFuel {A}.

(** State-and-exception monad: the state survives a [raise], as the
    bytes already put on the wire do. *)
Definition M (S A : Type) : Type := S -> outcome A * S.

Definition ret {S A} (a : A) : M S A := fun s => (Returned a, s).

Definition raise {S A} (e : exn) : M S A := fun s => (Raised e, s).

Definition bind {S A B} (c : M S A) (k : A -> M S B) : M S B :=
  fun s =>
    match c s with
    | (Returned a, s') => k a s'
    | (Raised e, s') => (Raised e, s')
    | (OutOfFuel, s') => (OutOfFuel, s')
    end.

Notation "'let!' x ':=' c 'in' k" := (bind c (fun x => k))
  (at level 10, x name, c at level 100, k at level 200).
Notation "'await!' c 'in' k" := (bind c (fun _ => k))
  (at level 10, c at level 100, k at level 200).

(** A computation whose loops were unrolled far enough, from every
    state. *)
Definition terminates {S A} (c : M S A) : Prop :=
  forall s, fst (c s) <> OutOfFuel.

(** A computation that raises no [ValueError], from any state. *)
Definition no_value_error {S A} (c : M S A) : Prop :=
  forall s msg, fst (c s) <> Raised (ValueError msg).

(** Lifting of a pure computation that may raise. *)
Definition lift_sum {S A} (r : exn + A) : M S A :=
  match r with
  | inl e => raise e
  | inr a => ret a
  end.

(** ** Bytes *)

Definition is_byte (i : Z) : bool := (0 <=? i) && (i <? 256).

(** [bytes(iterable)]: every item must be in [range(0, 256)]. *)
Definition to_bytes (items : list Z) : exn + list Z :=
  if forallb is_byte items then inr items
  else inl (ValueError "bytes must be in range(0, 256)").

(** [bytes(generator)]: an exception of the generator passes through. *)
Definition bytes_of_generator (g : exn + list Z) : exn + list Z :=
  match g with
  | inl e => inl e
  | inr items => to_bytes items
  end.

(** [struct.pack('>I', n)]: four bytes, most significant first. *)
Definition pack_I_be (n : Z) : exn + list Z :=
  if (0 <=? n) && (n <? 2 ^ 32)
  then inr [Z.land (Z.shiftr n 24) 255; Z.land (Z.shiftr n 16) 255;
            Z.land (Z.shiftr n 8) 255; Z.land n 255]
  else inl StructError.

(** [struct.unpack('<H', b)[0]]: two bytes, least significant first. *)
Definition unpack_H_le (b : list Z) : exn + Z :=
  match b with
  | [b0; b1] => inr (b0 + 256 * b1)
  | _ => inl StructError
  end.

(** [len(b)] *)
Definition len {A} (b : list A) : Z := Z.of_nat (length b).

(** [b[0]] *)
Definition index0 (b : list Z) : exn + Z :=
  match b with
  | x :: _ => inr x
  | [] => inl IndexError
  end.

(** [int.from_bytes(b, byteorder='big')]. *)
Definition int_from_bytes_big (b : list Z) : Z :=
  fold_left (fun acc x => acc * 256 + x) b 0.

(** [f'{b:02x}'] for a byte. *)
Definition hex_digit (d : Z) : string :=
  match d with
  | 0 => "0" | 1 => "1" | 2 => "2" | 3 => "3" | 4 => "4" | 5 => "5"
  | 6 => "6" | 7 => "7" | 8 => "8" | 9 => "9" | 10 => "a" | 11 => "b"
  | 12 => "c" | 13 => "d" | 14 => "e" | _ => "f"
  end%string.

Definition hex02 (b : Z) : string :=
  (hex_digit (b / 16) +:+ hex_digit (b mod 16))%string.

(** ** connection.py: class CmdType *)

Module CmdType.
Inductive t : Type :=
| GET_COMMANDS | GET_PROTECTION | GET_CHIP_ID | READ | EXECUTE | WRITE
| ERASE | ERASE_EXTENDED | SPECIAL | SPECIAL_EXTENDED | PROTECT_READ
| UNPROTECT_READ | PROTECT_WRITE | UNPROTECT_WRITE | CHECK_CRC.

Definition value (c : t) : Z :=
  match c with
  | GET_COMMANDS => 0x00
  | GET_PROTECTION => 0x01
  | GET_CHIP_ID => 0x02
  | READ => 0x11
  | EXECUTE => 0x21
  | WRITE => 0x31
  | ERASE => 0x43
  | ERASE_EXTENDED => 0x44
  | SPECIAL => 0x50
  | SPECIAL_EXTENDED => 0x51
  | PROTECT_READ => 0x82
  | UNPROTECT_READ => 0x92
  | PROTECT_WRITE => 0x63
  | UNPROTECT_WRITE => 0x73
  | CHECK_CRC => 0xA1
  end.

(** [CmdType(i)]: the member with value [i], if any. *)
Definition of_value (i : Z) : option t :=
  match i with
  | 0x00 => Some GET_COMMANDS
  | 0x01 => Some GET_PROTECTION
  | 0x02 => Some GET_CHIP_ID
  | 0x11 => Some READ
  | 0x21 => Some EXECUTE
  | 0x31 => Some WRITE
  | 0x43 => Some ERASE
  | 0x44 => Some ERASE_EXTENDED
  | 0x50 => Some SPECIAL
  | 0x51 => Some SPECIAL_EXTENDED
  | 0x82 => Some PROTECT_READ
  | 0x92 => Some UNPROTECT_READ
  | 0x63 => Some PROTECT_WRITE
  | 0x73 => Some UNPROTECT_WRITE
  | 0xA1 => Some CHECK_CRC
  | _ => None
  end.

#[global] Instance eq_dec : EqDecision t.
Proof. solve_decision. Defined.

#[global] Instance countable : Countable t.
Proof.
  apply (inj_countable' value (fun i => default GET_COMMANDS (of_value i))).
  intros []; reflexivity.
Defined.
End CmdType.

(** ** connection.py: the checksum generator *)

(** The [for] loop of [_get_data_with_checksum]: [count] and [crc] after
    the whole of [data] has been yielded. *)
Fixpoint checksum_loop (data : list Z) (count crc : Z) : Z * Z :=
  match data with
  | [] => (count, crc)
  | i :: rest => checksum_loop rest (count + 1) (Z.land 0xFF (Z.lxor crc i))
  end.

(** [_get_data_with_checksum(data)], as the list of everything the
    generator yields, or the exception it ends with. *)
Definition _get_data_with_checksum (data : list Z) : exn + list Z :=
  let '(count, crc) := checksum_loop data 0 0 in
  if count <? 1 then inl (ValueError "invalid data size")
  else
    let crc := if count <? 2 then Z.land 0xFF (Z.lnot crc) else crc in
    inr (data ++ [crc]).

(** ** The serial endpoint ([hat.drivers.serial])

    The endpoint is an external collaborator. It is modelled by the
    bytes the device has sent and the host has not read yet
    ([pending]), the frames the host has written, one entry per call of
    [write] ([written]), and the state of the attached device ([dev]),
    which may answer every frame it receives. *)

Class Device (D : Type) : Type :=
  respond : D -> list Z -> D * list Z.

Record Link (D : Type) : Type := mkLink {
  pending : list Z;
  written : list (list Z);
  dev : D
}.

Arguments mkLink {D} pending written dev.
Arguments pending {D} l.
Arguments written {D} l.
Arguments dev {D} l.

(** A device that never answers by itself: whatever the host reads was
    put in [pending] beforehand (a scripted stub). *)
#[global] Instance scripted : Device unit :=
  fun d _ => (d, []).

Section Serial.
Context {D : Type} `{Device D}.

(** [await conn.write(data)] *)
Definition serial_write (data : list Z) : M (Link D) unit :=
  fun l =>
    let '(d, reply) := respond (dev l) data in
    (Returned tt, mkLink (pending l ++ reply) (written l ++ [data]) d).

(** [await conn.read(size)]: exactly [size] bytes; when the device
    sends fewer the endpoint is taken to close, which the driver
    reports as [ConnectionError]. *)
Definition serial_read (size : Z) : M (Link D) (list Z) :=
  fun l =>
    let n := Z.to_nat size in
    if (n <=? length (pending l))%nat
    then (Returned (take n (pending l)),
          mkLink (drop n (pending l)) (written l) (dev l))
    else (Raised ConnectionError, l).
End Serial.

(** ** connection.py: the results of get-commands and get-protection *)

Module CommandsRes.
Record t : Type := mk {
  version : Z;
  cmd_types : gset CmdType.t
}.
End CommandsRes.

Module ProtectionRes.
Record t : Type := mk {
  version : Z;
  status : Z;
  counter : Z
}.
End ProtectionRes.

(** [CmdType(i) for i in cmd_types_bytes], in order: the first byte that
    is the value of no member raises [ValueError]. *)
Fixpoint cmd_types_of (cmd_types_bytes : list Z) : exn + list CmdType.t :=
  match cmd_types_bytes with
  | [] => inr []
  | i :: rest =>
      match CmdType.of_value i with
      | None => inl (ValueError (pretty i +:+ " is not a valid CmdType"))
      | Some c =>
          match cmd_types_of rest with
          | inl e => inl e
          | inr cs => inr (c :: cs)
          end
      end
  end.

(** [a, b = two_bytes] *)
Definition unpack_pair (b : list Z) : exn + Z * Z :=
  match b with
  | [x; y] => inr (x, y)
  | _ :: _ :: _ :: _ => inl (ValueError "too many values to unpack (expected 2)")
  | _ =>
      inl (ValueError ("not enough values to unpack (expected 2, got "
                       +:+ pretty (length b) +:+ ")"))
  end.

(** ** connection.py: class Connection *)

Module Connection.
Section Connection.
Context {D : Type} `{Device D}.

Definition _receive_ack : M (Link D) unit :=
  let! res := serial_read 1 in
  if decide (res = [0x1f]) then raise (Exception "received NACK")
  else if decide (res <> [0x79]) then
    match res with
    | b :: _ =>
        raise (Exception ("received unknown response: 0x" +:+ hex02 b))
    | [] => raise IndexError
    end
  else ret tt.

Definition _send (data : list Z) : M (Link D) unit :=
  let! data_with_checksum :=
    lift_sum (bytes_of_generator (_get_data_with_checksum data)) in
  await! serial_write data_with_checksum in
  _receive_ack.

Definition get_commands : M (Link D) CommandsRes.t :=
  await! _send [CmdType.value CmdType.GET_COMMANDS] in
  let! count_bytes := serial_read 1 in
  let! count := lift_sum (index0 count_bytes) in
  let! version_bytes := serial_read 1 in
  let! version := lift_sum (index0 version_bytes) in
  let! cmd_types_bytes := serial_read count in
  let! cmd_types := lift_sum (cmd_types_of cmd_types_bytes) in
  await! _receive_ack in
  ret (CommandsRes.mk version (list_to_set cmd_types)).

Definition get_protection : M (Link D) ProtectionRes.t :=
  await! _send [CmdType.value CmdType.GET_PROTECTION] in
  let! version_bytes := serial_read 1 in
  let! version := lift_sum (index0 version_bytes) in
  let! protection_bytes := serial_read 2 in
  let! status_counter := lift_sum (unpack_pair protection_bytes) in
  await! _receive_ack in
  ret (ProtectionRes.mk version (fst status_counter) (snd status_counter)).

Definition get_chip_id : M (Link D) Z :=
  await! _send [CmdType.value CmdType.GET_CHIP_ID] in
  let! count_bytes := serial_read 1 in
  let! count := lift_sum (index0 count_bytes) in
  let! chip_id_bytes := serial_read (count + 1) in
  let chip_id := int_from_bytes_big chip_id_bytes in
  await! _receive_ack in
  ret chip_id.

Definition read (start_address size : Z) : M (Link D) (list Z) :=
  if size >? 0x100 then raise (ValueError "unsupported size")
  else
    await! _send [CmdType.value CmdType.READ] in
    let! start_address_bytes := lift_sum (pack_I_be start_address) in
    await! _send start_address_bytes in
    await! _send [size - 1] in
    let! data := serial_read size in
    ret data.

Definition write (start_address : Z) (data : list Z) : M (Link D) unit :=
  let size := len data in
  if (size >? 0x100) || (size <? 1) then raise (ValueError "unsupported data")
  else
    await! _send [CmdType.value CmdType.WRITE] in
    let! start_address_bytes := lift_sum (pack_I_be start_address) in
    await! _send start_address_bytes in
    _send ([size - 1] ++ data).

Definition execute (start_address : Z) : M (Link D) unit :=
  await! _send [CmdType.value CmdType.EXECUTE] in
  let! start_address_bytes := lift_sum (pack_I_be start_address) in
  _send start_address_bytes.

Definition erase (pages : option (list Z)) : M (Link D) unit :=
  await! match pages with
         | Some p =>
             let size := len p in
             if (size <? 1) || (size >? 0xFF)
             then raise (ValueError "unsupported pages length")
             else ret tt
         | None => ret tt
         end in
  await! _send [CmdType.value CmdType.ERASE] in
  match pages with
  | None => _send [0xFF]
  | Some p => _send ([len p - 1] ++ p)
  end.

Definition protect_read : M (Link D) unit :=
  await! _send [CmdType.value CmdType.PROTECT_READ] in
  _receive_ack.

Definition unprotect_read : M (Link D) unit :=
  await! _send [CmdType.value CmdType.UNPROTECT_READ] in
  _receive_ack.

Definition protect_write : M (Link D) unit :=
  raise NotImplementedError.

Definition unprotect_write : M (Link D) unit :=
  await! _send [CmdType.value CmdType.UNPROTECT_WRITE] in
  _receive_ack.
End Connection.
End Connection.

(** ** client.py *)

Module Protection.
Inductive t : Type :=
| PROTECT_READ | UNPROTECT_READ | PROTECT_WRITE | UNPROTECT_WRITE.
End Protection.

Record Info : Type := mkInfo {
  version : Z;
  chip_id : Z;
  device_id : list Z;
  flash_size : Z
}.

(** The attributes of a [Client] set by [create_client]: the protocol
    version and the command types the device reported. The connection
    [_conn] is the state of the monad. *)
Record ClientAttrs : Type := mkClient {
  _version : Z;
  _cmd_types : gset CmdType.t
}.

Module Client.
Section Client.
Context {D : Type} `{Device D}.

Definition get_info (self : ClientAttrs) : M (Link D) Info :=
  if decide (CmdType.GET_CHIP_ID ∉ _cmd_types self)
  then raise (Exception "get chip id not supported")
  else if decide (CmdType.READ ∉ _cmd_types self)
  then raise (Exception "read not supported")
  else
    let! chip_id := Connection.get_chip_id in
    let! device_id := Connection.read 0x1FFFF7E8 12 in
    let! flash_size_bytes := Connection.read 0x1FFFF7E0 2 in
    let! unpacked := lift_sum (unpack_H_le flash_size_bytes) in
    let flash_size := unpacked * 1024 in
    ret (mkInfo (_version self) chip_id device_id flash_size).

Definition set_protection (self : ClientAttrs) (protection : Protection.t)
  : M (Link D) unit :=
  match protection with
  | Protection.PROTECT_READ =>
      if decide (CmdType.PROTECT_READ ∉ _cmd_types self)
      then raise (Exception "protect read not supported")
      else Connection.protect_read
  | Protection.UNPROTECT_READ =>
      if decide (CmdType.UNPROTECT_READ ∉ _cmd_types self)
      then raise (Exception "unprotect read not supported")
      else Connection.unprotect_read
  | Protection.PROTECT_WRITE =>
      if decide (CmdType.PROTECT_WRITE ∉ _cmd_types self)
      then raise (Exception "protect write not supported")
      else Connection.protect_write
  | Protection.UNPROTECT_WRITE =>
      if decide (CmdType.UNPROTECT_WRITE ∉ _cmd_types self)
      then raise (Exception "unprotect write not supported")
      else Connection.unprotect_write
  end.

Definition erase (self : ClientAttrs) (pages : option (list Z))
  : M (Link D) unit :=
  if decide (CmdType.ERASE ∉ _cmd_types self)
  then raise (Exception "erase not supported")
  else Connection.erase pages.

Definition execute (self : ClientAttrs) (start_address : Z)
  : M (Link D) unit :=
  if decide (CmdType.EXECUTE ∉ _cmd_types self)
  then raise (Exception "execute not supported")
  else Connection.execute start_address.

(** *** Chunked transfers

    A progress callback acts on a state [U] of its caller; [read] and
    [write] run on the link together with that state. *)
Context {U : Type}.

Definition ProgressCb : Type := Z -> Z -> U -> U.

Definition on_link {A} (c : M (Link D) A) : M (Link D * U) A :=
  fun s =>
    let '(r, l) := c (fst s) in (r, (l, snd s)).

Definition call (cb : ProgressCb) (done total : Z) : M (Link D * U) unit :=
  fun s => (Returned tt, (fst s, cb done total (snd s))).

Definition out_of_fuel {A} : M (Link D * U) A :=
  fun s => (OutOfFuel, s).

(** The [while size > 0] loop of [read]; [fuel] bounds the number of
    iterations. *)
Fixpoint read_loop (fuel : nat) (progress_cb : option ProgressCb)
    (total_size start_address size read_size : Z)
    (segments : list (list Z)) : M (Link D * U) (list (list Z)) :=
  if size >? 0 then
    match fuel with
    | O => out_of_fuel
    | S fuel =>
        let segment_size := Z.min size 0x100 in
        let! segment :=
          on_link (Connection.read start_address segment_size) in
        let segments := segments ++ [segment] in
        let start_address := start_address + segment_size in
        let size := size - segment_size in
        let read_size := read_size + segment_size in
        await! match progress_cb with
               | Some cb => call cb read_size total_size
               | None => ret tt
               end in
        read_loop fuel progress_cb total_size start_address size
                  read_size segments
    end
  else ret segments.

Definition read (self : ClientAttrs) (start_address size : Z)
    (progress_cb : option ProgressCb) : M (Link D * U) (list Z) :=
  if decide (CmdType.READ ∉ _cmd_types self)
  then raise (Exception "read not supported")
  else
    let total_size := size in
    let read_size := 0 in
    await! match progress_cb with
           | Some cb => call cb read_size total_size
           | None => ret tt
           end in
    let! segments :=
      read_loop (Z.to_nat size) progress_cb total_size start_address size
                read_size [] in
    ret (concat segments).

(** The [while data] loop of [write]. *)
Fixpoint write_loop (fuel : nat) (progress_cb : option ProgressCb)
    (total_size start_address : Z) (data : list Z) (written_size : Z)
    : M (Link D * U) unit :=
  if bool_decide (data <> []) then
    match fuel with
    | O => out_of_fuel
    | S fuel =>
        let segment_size := Z.min (len data) 0x100 in
        await! on_link (Connection.write start_address
                          (take (Z.to_nat segment_size) data)) in
        let data := drop (Z.to_nat segment_size) data in
        let start_address := start_address + segment_size in
        let written_size := written_size + segment_size in
        await! match progress_cb with
               | Some cb => call cb written_size total_size
               | None => ret tt
               end in
        write_loop fuel progress_cb total_size start_address data
                   written_size
    end
  else ret tt.

Definition write (self : ClientAttrs) (start_address : Z) (data : list Z)
    (progress_cb : option ProgressCb) : M (Link D * U) unit :=
  if decide (CmdType.WRITE ∉ _cmd_types self)
  then raise (Exception "write not supported")
  else
    let total_size := len data in
    let written_size := 0 in
    await! match progress_cb with
           | Some cb => call cb written_size total_size
           | None => ret tt
           end in
    write_loop (length data) progress_cb total_size start_address data
               written_size.
End Client.
End Client.

(** ** connection.py: connect, and client.py: create_client

    The serial endpoint that [serial.create] opens is the link the
    computation starts on; [port] and [baudrate] only select it. The
    flag beside the link tells whether [async_close] has been called. *)

Section Session.
Context {D : Type} `{Device D}.

Definition async_close : M (Link D * bool) unit :=
  fun s => (Returned tt, (fst s, true)).

(** [try: c  except Exception: await aio.uncancellable(async_close());
    raise] *)
Definition close_on_exception {A} (c : M (Link D * bool) A)
  : M (Link D * bool) A :=
  fun s =>
    match c s with
    | (Raised e, s') => (Raised e, (async_close s').2)
    | r => r
    end.

Definition connect (port : string) (baudrate : Z) (skip_init : bool)
  : M (Link D * bool) unit :=
  if skip_init then ret tt
  else
    close_on_exception
      (await! Client.on_link (serial_write [0x7F]) in
       Client.on_link Connection._receive_ack).

Definition create_client (port : string) (baudrate : Z) (skip_init : bool)
  : M (Link D * bool) ClientAttrs :=
  await! connect port baudrate skip_init in
  close_on_exception
    (let! res := Client.on_link Connection.get_commands in
     ret (mkClient (CommandsRes.version res) (CommandsRes.cmd_types res))).
End Session.

(** ** main.py: the protection action *)

Module ProtectionArgs.
Record t : Type := mk {
  protect_read : bool;
  unprotect_read : bool;
  protect_write : bool;
  unprotect_write : bool
}.
End ProtectionArgs.

Section Actions.
Context {D : Type} `{Device D}.

Definition _act_protection (client : ClientAttrs) (args : ProtectionArgs.t)
  : M (Link D) unit :=
  await! (if ProtectionArgs.protect_read args
          then Client.set_protection client Protection.PROTECT_READ
          else ret tt) in
  await! (if ProtectionArgs.unprotect_read args
          then Client.set_protection client Protection.UNPROTECT_READ
          else ret tt) in
  await! (if ProtectionArgs.protect_write args
          then Client.set_protection client Protection.PROTECT_WRITE
          else ret tt) in
  if ProtectionArgs.unprotect_write args
  then Client.set_protection client Protection.UNPROTECT_WRITE
  else ret tt.
End Actions.

(** ** Reference definitions

    What the specification says in words, written out so that the code
    above can be compared with it. *)

Definition ACK : Z := 0x79.
Definition NACK : Z := 0x1F.

(** The place of the first [c] in [s], counted from 0. *)
Fixpoint position (c : Ascii.ascii) (s : string) : option Z :=
  match s with
  | EmptyString => None
  | String x s' =>
      if Ascii.eqb c x then Some 0 else Z.succ <$> position c s'
  end.

(** The value of a lowercase hexadecimal digit. *)
Definition hex_digit_value (c : Ascii.ascii) : option Z :=
  position c "0123456789abcdef".

(** What is left of [s] after its prefix [p], if [p] is a prefix. *)
Fixpoint strip_prefix (p s : string) : option string :=
  match p, s with
  | EmptyString, _ => Some s
  | String a p', String c s' =>
      if Ascii.eqb a c then strip_prefix p' s' else None
  | String _ _, EmptyString => None
  end.

(** The byte that the message of an unknown-response fault names: the
    message is "received unknown response: 0x" followed by exactly two
    lowercase hexadecimal digits, the more significant first. *)
Definition unknown_response_byte (msg : string) : option Z :=
  match strip_prefix "received unknown response: 0x" msg with
  | Some (String hi (String lo EmptyString)) =>
      match hex_digit_value hi, hex_digit_value lo with
      | Some h, Some l => Some (16 * h + l)
      | _, _ => None
      end
  | _ => None
  end.

(** The byte an outcome carries: that of an unknown-response fault, and
    none for a return or for any other fault. *)
Definition carried_byte {A : Type} (o : outcome A) : option Z :=
  match o with
  | Raised (Exception msg) => unknown_response_byte msg
  | _ => None
  end.

(** XOR of all body bytes. *)
Definition xor_all (body : list Z) : Z := fold_left Z.lxor body 0.

(** The checksum rule: the XOR of the body masked to 8 bits, except for
    a body of exactly one byte, whose checksum is its complement. *)
Definition frame_checksum (body : list Z) : Z :=
  match body with
  | [b] => Z.land 0xFF (Z.lnot b)
  | _ => Z.land 0xFF (xor_all body)
  end.

(** A frame: the body followed by its checksum byte. *)
Definition frame (body : list Z) : list Z := body ++ [frame_checksum body].

(** The body of a frame: all but its last byte. *)
Definition frame_body (f : list Z) : list Z := removelast f.

(** A 32-bit address as four bytes, most significant first. *)
Definition be32 (a : Z) : list Z :=
  [a / 2 ^ 24 mod 256; a / 2 ^ 16 mod 256; a / 2 ^ 8 mod 256; a mod 256].

(** The three frames of one wire write of [chunk] at [address]. *)
Definition wire_write (address : Z) (chunk : list Z) : list (list Z) :=
  [frame [0x31]; frame (be32 address); frame ([len chunk - 1] ++ chunk)].

(** The three frames of one wire read of [size] bytes at [address]. *)
Definition wire_read (address size : Z) : list (list Z) :=
  [frame [0x11]; frame (be32 address); frame [size - 1]].

(** [ceil(n / 256)] *)
Definition ceil_div_256 (n : Z) : Z := (n + 255) / 256.

(** The segments of a transfer of [data] to [address]: segment [k]
    starts [256 * k] bytes into the data and at address
    [address + 256 * k], and holds at most 256 bytes. *)
Definition segments (address : Z) (data : list Z) : list (Z * list Z) :=
  map (fun k : nat => (address + 256 * Z.of_nat k,
                       take 256 (drop (256 * k) data)))
      (seq 0 (Z.to_nat (ceil_div_256 (len data)))).

(** A naive single-shot read: the [size] bytes of [memory] from
    [address] on. *)
Definition naive_read (memory : Z -> Z) (address size : Z) : list Z :=
  map memory (seqZ address size).

(** The progress reports of a transfer: the byte count after each
    segment, starting from [done]. *)
Fixpoint progress_marks (done : Z) (sizes : list Z) : list Z :=
  match sizes with
  | [] => []
  | n :: rest => (done + n) :: progress_marks (done + n) rest
  end.

(** ** A reference device

    A bootloader holding a memory and a chip identifier, which answers
    the get-chip-id and read commands as the wire protocol lays them
    out: the opcode frame, the address frame and the length frame are
    each acknowledged, a frame with a wrong checksum or out of place is
    refused with NACK, and the data follow the last ACK. It stands for
    the device in the statements on what [Client.read] and
    [Client.get_info] return. *)

Module Bootloader.
Inductive phase : Type :=
| Idle
| ReadAddress
| ReadLength (address : Z).

Record t : Type := mk {
  memory : Z -> Z;
  chip : list Z;
  state : phase
}.

Definition goto (d : t) (p : phase) : t := mk (memory d) (chip d) p.

Definition step (d : t) (f : list Z) : t * list Z :=
  match state d, f with
  | Idle, [0x02; 0xFD] =>
      (d, [ACK; len (chip d) - 1] ++ chip d ++ [ACK])
  | Idle, [0x11; 0xEE] => (goto d ReadAddress, [ACK])
  | ReadAddress, [a3; a2; a1; a0; c] =>
      if c =? xor_all [a3; a2; a1; a0]
      then (goto d (ReadLength (a3 * 2 ^ 24 + a2 * 2 ^ 16 + a1 * 2 ^ 8 + a0)),
            [ACK])
      else (goto d Idle, [NACK])
  | ReadLength address, [n; c] =>
      if c =? 255 - n
      then (goto d Idle, ACK :: map (memory d) (seqZ address (n + 1)))
      else (goto d Idle, [NACK])
  | _, _ => (goto d Idle, [NACK])
  end.

#[global] Instance device : Device t := step.
End Bootloader.

(** ** A reference device with a writable memory

    The same bootloader, serving the write command as well: after the
    opcode frame and the address frame it takes one frame holding the
    length minus one, the data and the XOR of both, stores the data at
    the address and acknowledges. *)

Module Flash.
Inductive phase : Type :=
| Idle
| ReadAddress
| ReadLength (address : Z)
| WriteAddress
| WriteData (address : Z).

Record t : Type := mk {
  memory : Z -> Z;
  state : phase
}.

Definition goto (d : t) (p : phase) : t := mk (memory d) p.

(** The memory after [data] has been stored from [address] on. *)
Definition store (memory : Z -> Z) (address : Z) (data : list Z) : Z -> Z :=
  fun x =>
    if decide (address <= x < address + len data)
    then default 0 (data !! Z.to_nat (x - address))
    else memory x.

Definition address_of (a3 a2 a1 a0 : Z) : Z :=
  a3 * 2 ^ 24 + a2 * 2 ^ 16 + a1 * 2 ^ 8 + a0.

Definition step (d : t) (f : list Z) : t * list Z :=
  match state d, f with
  | Idle, [0x11; 0xEE] => (goto d ReadAddress, [ACK])
  | Idle, [0x31; 0xCE] => (goto d WriteAddress, [ACK])
  | ReadAddress, [a3; a2; a1; a0; c] =>
      if c =? xor_all [a3; a2; a1; a0]
      then (goto d (ReadLength (address_of a3 a2 a1 a0)), [ACK])
      else (goto d Idle, [NACK])
  | WriteAddress, [a3; a2; a1; a0; c] =>
      if c =? xor_all [a3; a2; a1; a0]
      then (goto d (WriteData (address_of a3 a2 a1 a0)), [ACK])
      else (goto d Idle, [NACK])
  | ReadLength address, [n; c] =>
      if c =? 255 - n
      then (goto d Idle, ACK :: map (memory d) (seqZ address (n + 1)))
      else (goto d Idle, [NACK])
  | WriteData address, n :: payload =>
      let data := removelast payload in
      match last payload with
      | Some c =>
          if (c =? xor_all (n :: data)) && (len data =? n + 1)
          then (mk (store (memory d) address data) Idle, [ACK])
          else (goto d Idle, [NACK])
      | None => (goto d Idle, [NACK])
      end
  | _, _ => (goto d Idle, [NACK])
  end.

#[global] Instance device : Device t := step.
End Flash.

(** A callback that records its calls. *)
Definition recorder : Z -> Z -> list (Z * Z) -> list (Z * Z) :=
  fun done total calls => calls ++ [(done, total)].

(** * Properties *)

(** ** Bytes and the checksum loop *)

Lemma land_255_lxor_l (a b : Z) :
  Z.land 255 (Z.lxor (Z.land 255 a) b) = Z.land 255 (Z.lxor a b).
Proof.
  apply Z.bits_inj'. intros n Hn.
  rewrite !Z.land_spec, !Z.lxor_spec, Z.land_spec.
  by destruct (Z.testbit 255 n).
Qed.

Lemma land_255_lnot (a : Z) :
  Z.land 255 (Z.lnot (Z.land 255 a)) = Z.land 255 (Z.lnot a).
Proof.
  apply Z.bits_inj'. intros n Hn.
  rewrite !Z.land_spec, !Z.lnot_spec, Z.land_spec by done.
  by destruct (Z.testbit 255 n).
Qed.

Lemma land_255_range (a : Z) : 0 <= Z.land 255 a < 256.
Proof.
  rewrite Z.land_comm. change 255 with (Z.ones 8).
  rewrite Z.land_ones by done. apply Z.mod_pos_bound. done.
Qed.

Lemma is_byte_range (i : Z) : is_byte i = true <-> 0 <= i < 256.
Proof. unfold is_byte. rewrite andb_true_iff. lia. Qed.

Lemma land_255_byte (a : Z) : 0 <= a < 256 -> Z.land 255 a = a.
Proof.
  intros Ha. rewrite Z.land_comm. change 255 with (Z.ones 8).
  rewrite Z.land_ones by done. by apply Z.mod_small.
Qed.

Lemma len_cons {A} (x : A) (l : list A) : len (x :: l) = len l + 1.
Proof. unfold len. simpl length. lia. Qed.

Lemma len_nonneg {A} (l : list A) : 0 <= len l.
Proof. unfold len. lia. Qed.

Lemma checksum_loop_spec (data : list Z) :
  forall count crc,
    checksum_loop data count (Z.land 255 crc)
    = (count + len data, Z.land 255 (fold_left Z.lxor data crc)).
Proof.
  induction data as [|i rest IH]; intros count crc; simpl.
  - unfold len. simpl. by rewrite Z.add_0_r.
  - rewrite land_255_lxor_l, IH, len_cons. f_equal. lia.
Qed.

Lemma generator_yields_frame (body : list Z) :
  body <> [] -> _get_data_with_checksum body = inr (frame body).
Proof.
  intros Hne. unfold _get_data_with_checksum, frame.
  change 0 with (Z.land 255 0) at 2. rewrite checksum_loop_spec.
  destruct body as [|b [|b' rest]]; [done | |].
  - simpl. by rewrite land_255_lnot.
  - rewrite !len_cons. pose proof (len_nonneg rest).
    destruct (_ <? 1) eqn:E1; [lia|]. destruct (_ <? 2) eqn:E2; [lia|]. done.
Qed.

Lemma frame_checksum_range (body : list Z) : 0 <= frame_checksum body < 256.
Proof.
  unfold frame_checksum. destruct body as [|b [|b' rest]]; apply land_255_range.
Qed.

Lemma to_bytes_ok (items : list Z) :
  forallb is_byte items = true -> to_bytes items = inr items.
Proof. intros Hb. unfold to_bytes. by rewrite Hb. Qed.

Lemma frame_is_bytes (body : list Z) :
  forallb is_byte body = true -> forallb is_byte (frame body) = true.
Proof.
  intros Hb. unfold frame. rewrite forallb_app, Hb. simpl.
  rewrite andb_true_r. apply is_byte_range, frame_checksum_range.
Qed.

Lemma bytes_of_frame (body : list Z) :
  body <> [] -> forallb is_byte body = true ->
  bytes_of_generator (_get_data_with_checksum body) = inr (frame body).
Proof.
  intros Hne Hb. rewrite generator_yields_frame by done. simpl.
  by apply to_bytes_ok, frame_is_bytes.
Qed.

(** The message built from the two hexadecimal digits of a byte names
    that byte, checked on each of the 256 bytes. *)
Lemma hex02_names_each_byte :
  forallb (fun b =>
    match unknown_response_byte ("received unknown response: 0x" +:+ hex02 b)
    with Some v => v =? b | None => false end) (seqZ 0 256) = true.
Proof. vm_compute. reflexivity. Qed.

Lemma unknown_response_byte_hex02 (b : Z) :
  0 <= b < 256 ->
  unknown_response_byte ("received unknown response: 0x" +:+ hex02 b) = Some b.
Proof.
  intros Hb.
  pose proof hex02_names_each_byte as Hall.
  rewrite forallb_forall in Hall.
  assert (In b (seqZ 0 256)) as Hin
    by (apply list_elem_of_In, elem_of_seqZ; lia).
  specialize (Hall b Hin).
  destruct (unknown_response_byte _) as [v|]; [|discriminate].
  f_equal. by apply Z.eqb_eq.
Qed.

Section Wire.
Context {D : Type} `{Device D}.

Lemma receive_ack_step (b : Z) (rest : list Z) (w : list (list Z)) (d : D) :
  Connection._receive_ack (mkLink (b :: rest) w d)
  = (if decide (b = 0x79) then Returned tt
     else if decide (b = 0x1F) then Raised (Exception "received NACK")
     else Raised (Exception ("received unknown response: 0x" +:+ hex02 b)),
     mkLink rest w d).
Proof.
  unfold Connection._receive_ack, bind, serial_read. simpl.
  repeat case_decide; simplify_eq; try done.
Qed.

Lemma receive_ack_written (l : Link D) :
  written (Connection._receive_ack l).2 = written l.
Proof.
  destruct l as [[|b rest] w d]; [reflexivity|].
  by rewrite receive_ack_step.
Qed.

Lemma send_step (body f : list Z) (l : Link D) :
  bytes_of_generator (_get_data_with_checksum body) = inr f ->
  Connection._send body l
  = Connection._receive_ack
      (mkLink (pending l ++ (respond (dev l) f).2) (written l ++ [f])
              (respond (dev l) f).1).
Proof.
  intros Hf. unfold Connection._send, bind at 1. rewrite Hf. simpl.
  unfold bind at 1, serial_write. by destruct (respond (dev l) f).
Qed.

Lemma send_acked (body : list Z) (l : Link D) (rest : list Z) :
  body <> [] -> forallb is_byte body = true ->
  pending l ++ (respond (dev l) (frame body)).2 = ACK :: rest ->
  Connection._send body l
  = (Returned tt,
     mkLink rest (written l ++ [frame body]) (respond (dev l) (frame body)).1).
Proof.
  intros Hne Hb Hp. rewrite (send_step body (frame body)) by by apply bytes_of_frame.
  rewrite Hp. by rewrite receive_ack_step.
Qed.
End Wire.

(** ** Wire format on a scripted link *)

Lemma bind_returned {S A B} (c : M S A) (k : A -> M S B) (s s' : S) (a : A) :
  c s = (Returned a, s') -> bind c k s = k a s'.
Proof. intros Hc. unfold bind. by rewrite Hc. Qed.

Lemma lxor_byte (a b : Z) : 0 <= a < 256 -> 0 <= b < 256 -> 0 <= Z.lxor a b < 256.
Proof.
  intros Ha Hb.
  rewrite <- (land_255_byte a Ha), <- (land_255_byte b Hb).
  assert (Z.land 255 (Z.lxor (Z.land 255 a) (Z.land 255 b))
          = Z.lxor (Z.land 255 a) (Z.land 255 b)) as <-.
  { apply Z.bits_inj'. intros n Hn.
    rewrite Z.land_spec, !Z.lxor_spec, !Z.land_spec.
    by destruct (Z.testbit 255 n). }
  apply land_255_range.
Qed.

Lemma fold_lxor_byte (body : list Z) :
  forall acc, 0 <= acc < 256 -> forallb is_byte body = true ->
    0 <= fold_left Z.lxor body acc < 256.
Proof.
  induction body as [|b rest IH]; intros acc Hacc Hb; simpl in *; [done|].
  apply andb_true_iff in Hb as [Hb Hrest]. apply is_byte_range in Hb.
  apply IH; [by apply lxor_byte | done].
Qed.

Lemma xor_all_byte (body : list Z) :
  forallb is_byte body = true -> 0 <= xor_all body < 256.
Proof. apply fold_lxor_byte. lia. Qed.

Lemma frame_long (b b' : Z) (rest : list Z) :
  forallb is_byte (b :: b' :: rest) = true ->
  frame (b :: b' :: rest) = (b :: b' :: rest) ++ [xor_all (b :: b' :: rest)].
Proof.
  intros Hb. unfold frame, frame_checksum. by rewrite land_255_byte by by apply xor_all_byte.
Qed.

Lemma send_scripted (body rest : list Z) (w : list (list Z)) :
  body <> [] -> forallb is_byte body = true ->
  Connection._send body (mkLink (ACK :: rest) w tt)
  = (Returned tt, mkLink rest (w ++ [frame body]) tt).
Proof.
  intros Hne Hb. rewrite (send_acked body _ rest); try done.
  simpl. by rewrite app_nil_r.
Qed.

Lemma pack_I_be_be32 (a : Z) :
  0 <= a < 2 ^ 32 -> pack_I_be a = inr (be32 a).
Proof.
  intros Ha. unfold pack_I_be, be32.
  destruct (_ && _) eqn:Hr; [|apply andb_false_iff in Hr; lia].
  change 255 with (Z.ones 8).
  by rewrite !Z.land_ones, !Z.shiftr_div_pow2 by done.
Qed.

Lemma be32_bytes (a : Z) : forallb is_byte (be32 a) = true.
Proof.
  unfold be32. simpl. rewrite !andb_true_iff.
  repeat split; apply is_byte_range, Z.mod_pos_bound; done.
Qed.

Lemma be32_value (a : Z) :
  0 <= a < 2 ^ 32 ->
  (a / 2 ^ 24 mod 256) * 2 ^ 24 + (a / 2 ^ 16 mod 256) * 2 ^ 16
  + (a / 2 ^ 8 mod 256) * 2 ^ 8 + a mod 256 = a.
Proof. intros Ha. Z.div_mod_to_equations. lia. Qed.

Lemma bind_ret {S A B} (a : A) (k : A -> M S B) (s : S) :
  bind (ret a) k s = k a s.
Proof. reflexivity. Qed.

(** *** Erase on a scripted link *)

Lemma erase_all_scripted (rest : list Z) (w : list (list Z)) :
  Connection.erase None (mkLink (ACK :: ACK :: rest) w tt)
  = (Returned tt, mkLink rest (w ++ [[0x43; 0xBC]; [0xFF; 0x00]]) tt).
Proof.
  unfold Connection.erase. cbv beta iota. rewrite bind_ret.
  erewrite bind_returned by by apply send_scripted.
  rewrite send_scripted by done. by rewrite <- app_assoc.
Qed.

Lemma erase_pages_scripted (pages rest : list Z) (w : list (list Z)) :
  (1 <= length pages <= 255)%nat -> forallb is_byte pages = true ->
  Connection.erase (Some pages) (mkLink (ACK :: ACK :: rest) w tt)
  = (Returned tt,
     mkLink rest
       (w ++ [[0x43; 0xBC];
              ([len pages - 1] ++ pages) ++ [xor_all ([len pages - 1] ++ pages)]])
       tt).
Proof.
  intros Hlen Hb. unfold Connection.erase.
  assert (Hc : (len pages <? 1) || (len pages >? 255) = false).
  { apply orb_false_iff. unfold len. lia. }
  cbv beta iota zeta. rewrite Hc, bind_ret.
  erewrite bind_returned by by apply send_scripted.
  assert (Hbody : forallb is_byte ([len pages - 1] ++ pages) = true).
  { simpl. rewrite Hb, andb_true_r. apply is_byte_range. unfold len. lia. }
  rewrite send_scripted by done. rewrite <- app_assoc. simpl app at 2.
  destruct pages as [|p ps]; [simpl in Hlen; lia|].
  by rewrite (frame_long _ _ _ Hbody).
Qed.

(** ** Chunked write on a scripted link *)

Lemma write_scripted (a : Z) (chunk rest : list Z) (w : list (list Z)) :
  (1 <= length chunk <= 256)%nat -> forallb is_byte chunk = true ->
  0 <= a < 2 ^ 32 ->
  Connection.write a chunk (mkLink (ACK :: ACK :: ACK :: rest) w tt)
  = (Returned tt, mkLink rest (w ++ wire_write a chunk) tt).
Proof.
  intros Hlen Hb Ha. unfold Connection.write. cbv zeta.
  assert (Hc : (len chunk >? 256) || (len chunk <? 1) = false).
  { apply orb_false_iff. unfold len. lia. }
  rewrite Hc.
  erewrite bind_returned by by apply send_scripted.
  rewrite pack_I_be_be32 by done. simpl lift_sum. rewrite bind_ret.
  erewrite bind_returned by (apply send_scripted; [done | apply be32_bytes]).
  assert (Hbody : forallb is_byte ([len chunk - 1] ++ chunk) = true).
  { simpl. rewrite Hb, andb_true_r. apply is_byte_range. unfold len. lia. }
  rewrite send_scripted by done.
  unfold wire_write. by rewrite <- !app_assoc.
Qed.

Lemma ceil_div_256_step (n : Z) :
  0 < n -> ceil_div_256 n = 1 + ceil_div_256 (Z.max 0 (n - 256)).
Proof. intros Hn. unfold ceil_div_256. Z.div_mod_to_equations. lia. Qed.

Lemma segments_nil (a : Z) : segments a [] = [].
Proof. reflexivity. Qed.

Lemma segments_cons (a : Z) (data : list Z) :
  data <> [] ->
  segments a data = (a, take 256 data) :: segments (a + 256) (drop 256 data).
Proof.
  intros Hne. unfold segments.
  assert (Hl : len (drop 256 data) = Z.max 0 (len data - 256)).
  { unfold len. rewrite length_drop. lia. }
  rewrite (ceil_div_256_step (len data)); [|destruct data; [done|rewrite len_cons; pose proof (len_nonneg data); lia]].
  rewrite Hl.
  assert (Hnn : 0 <= ceil_div_256 (Z.max 0 (len data - 256))).
  { unfold ceil_div_256. apply Z.div_pos; lia. }
  rewrite Z2Nat.inj_add by lia. change (Z.to_nat 1) with 1%nat.
  simpl seq. simpl map. rewrite drop_0. f_equal; [f_equal; lia|].
  rewrite <- seq_shift, map_map. apply map_ext. intros k.
  rewrite drop_drop. f_equal; [lia|]. do 2 f_equal. lia.
Qed.

Lemma take_segment (data : list Z) :
  take (Z.to_nat (Z.min (len data) 256)) data = take 256 data.
Proof.
  unfold len. destruct (decide (256 <= length data)%nat).
  - f_equal. lia.
  - rewrite !take_ge; [done | lia | lia].
Qed.

Lemma drop_segment (data : list Z) :
  drop (Z.to_nat (Z.min (len data) 256)) data = drop 256 data.
Proof.
  unfold len. destruct (decide (256 <= length data)%nat).
  - f_equal. lia.
  - rewrite !drop_ge; [done | lia | lia].
Qed.

Lemma segments_next (a : Z) (data : list Z) :
  segments (a + Z.min (len data) 256) (drop 256 data)
  = segments (a + 256) (drop 256 data).
Proof.
  unfold len. destruct (decide (256 <= length data)%nat).
  - do 2 f_equal. lia.
  - rewrite drop_ge by lia. reflexivity.
Qed.

Section ChunkedWrite.
Context {U : Type}.
Variable progress_cb : option (Z -> Z -> U -> U).
Variable total : Z.
Variable rest : list Z.

Lemma on_link_returned {D A} (c : M (Link D) A) (l l' : Link D)
    (u : U) (a : A) :
  c l = (Returned a, l') -> Client.on_link c (l, u) = (Returned a, (l', u)).
Proof. intros Hc. unfold Client.on_link. simpl. by rewrite Hc. Qed.

Lemma write_loop_scripted (fuel : nat) :
  forall (data : list Z) (a ws : Z) (w : list (list Z)) (u : U),
    (length data <= fuel)%nat -> forallb is_byte data = true ->
    0 <= a -> a + len data <= 2 ^ 32 ->
    exists u',
      Client.write_loop fuel progress_cb total a data ws
        (mkLink (repeat ACK (3 * length (segments a data)) ++ rest) w tt, u)
      = (Returned tt,
         (mkLink rest
            (w ++ concat (map (fun seg => wire_write seg.1 seg.2)
                              (segments a data))) tt, u')).
Proof.
  induction fuel as [|fuel IH]; intros data a ws w u Hfuel Hb Ha Hend.
  - destruct data; [|simpl in Hfuel; lia].
    exists u. simpl. by rewrite app_nil_r.
  - destruct (decide (data = [])) as [->|Hne].
    { exists u. simpl. by rewrite app_nil_r. }
    rewrite segments_cons by done.
    assert (Hlen : (1 <= length data)%nat) by (destruct data; [done|simpl; lia]).
    replace (3 * length ((a, take 256 data) :: segments (a + 256) (drop 256 data)))%nat
      with (3 + 3 * length (segments (a + 256) (drop 256 data)))%nat
      by (simpl; lia).
    rewrite repeat_app, <- app_assoc.
    remember (repeat ACK (3 * length (segments (a + 256) (drop 256 data))))
      as tail eqn:Htail.
    simpl Client.write_loop. rewrite bool_decide_true by done.
    rewrite take_segment, drop_segment.
    erewrite bind_returned; cycle 1.
    { apply on_link_returned. apply write_scripted.
      - rewrite length_take. lia.
      - rewrite <- (take_drop 256 data), forallb_app in Hb.
        by apply andb_true_iff in Hb as [? ?].
      - unfold len in Hend. lia. }
    assert (Hb' : forallb is_byte (drop 256 data) = true).
    { rewrite <- (take_drop 256 data), forallb_app in Hb.
      by apply andb_true_iff in Hb as [? ?]. }
    assert (Hl : len (drop 256 data) = Z.max 0 (len data - 256)).
    { unfold len. rewrite length_drop. lia. }
    assert (Hn : 0 <= len data) by apply len_nonneg.
    set (u1 := match progress_cb with
               | Some cb => cb (ws + Z.min (len data) 256) total u
               | None => u
               end).
    destruct (IH (drop 256 data) (a + Z.min (len data) 256)
                (ws + Z.min (len data) 256) (w ++ wire_write a (take 256 data)) u1)
      as [u' Hloop]; [rewrite length_drop; lia | done | lia | lia |].
    exists u'. rewrite segments_next, <- Htail in Hloop.
    rewrite map_cons, concat_cons. cbn [fst snd]. rewrite app_assoc, <- Hloop.
    by destruct progress_cb.
Qed.
End ChunkedWrite.

Lemma segments_ind (P : Z -> list Z -> list (Z * list Z) -> Prop) :
  (forall a, P a [] []) ->
  (forall a data, data <> [] ->
     P (a + 256) (drop 256 data) (segments (a + 256) (drop 256 data)) ->
     P a data ((a, take 256 data) :: segments (a + 256) (drop 256 data))) ->
  forall a data, P a data (segments a data).
Proof.
  intros Hnil Hcons a data. remember (length data) as n eqn:Hn.
  revert a data Hn. induction (lt_wf n) as [n _ IH]. intros a data ->.
  destruct (decide (data = [])) as [->|Hne]; [apply Hnil|].
  rewrite segments_cons by done. apply Hcons; [done|].
  apply (IH (length (drop 256 data))); [|done].
  rewrite length_drop. destruct data; [done|simpl; lia].
Qed.

Lemma segments_length (a : Z) (data : list Z) :
  length (segments a data) = Z.to_nat (ceil_div_256 (len data)).
Proof. unfold segments. by rewrite length_map, length_seq. Qed.

Lemma segments_sizes (a : Z) (data : list Z) :
  Forall (fun seg => (1 <= length seg.2 <= 256)%nat) (segments a data).
Proof.
  apply (segments_ind (fun _ _ segs =>
           Forall (fun seg => (1 <= length seg.2 <= 256)%nat) segs)).
  - intros _. constructor.
  - intros a' data' Hne IH. constructor; [|done]. simpl.
    rewrite length_take.
    assert (1 <= length data')%nat by (destruct data'; [done|simpl; lia]).
    lia.
Qed.

Lemma segments_concat (a : Z) (data : list Z) :
  concat (map snd (segments a data)) = data.
Proof.
  apply (segments_ind (fun _ data segs => concat (map snd segs) = data)).
  - done.
  - intros a' data' Hne IH. rewrite map_cons, concat_cons, IH. apply take_drop.
Qed.

Lemma segments_contiguous (a : Z) (data : list Z) :
  forall k seg, segments a data !! k = Some seg ->
    seg.1 = a + len (concat (map snd (take k (segments a data)))).
Proof.
  apply (segments_ind (fun a _ segs => forall k seg, segs !! k = Some seg ->
           seg.1 = a + len (concat (map snd (take k segs))))).
  - intros a' k seg Hk. done.
  - intros a' data' Hne IH [|k] seg Hk.
    + injection Hk as <-. simpl. unfold len. simpl. lia.
    + simpl in Hk. rewrite (IH k seg Hk), firstn_cons.
      rewrite map_cons, concat_cons. unfold len. cbn [snd].
      rewrite length_app, length_take.
      assert (drop 256 data' <> []) as Hmore.
      { intros Hd. rewrite Hd in Hk. done. }
      assert (256 < length data')%nat.
      { destruct (decide (256 < length data')%nat); [done|].
        destruct Hmore. apply drop_ge. lia. }
      lia.
Qed.


(** ** Reads against the reference device *)

Lemma complement_byte (b : Z) : 0 <= b < 256 -> Z.land 255 (Z.lnot b) = 255 - b.
Proof.
  intros Hb. rewrite Z.land_comm. change 255 with (Z.ones 8) at 1.
  rewrite Z.land_ones by done. unfold Z.lnot.
  symmetry. apply (Z.mod_unique _ _ (-1)); lia.
Qed.

Lemma serial_read_all {D : Type} (n : Z) (data : list Z)
    (w : list (list Z)) (d : D) :
  length data = Z.to_nat n ->
  serial_read n (mkLink data w d) = (Returned data, mkLink [] w d).
Proof.
  intros Hn. unfold serial_read. simpl. rewrite <- Hn.
  rewrite Nat.leb_refl, firstn_all, drop_all. done.
Qed.

Section OnDevice.
Variable memory : Z -> Z.
Variable chip : list Z.

Local Abbreviation idle := (Bootloader.mk memory chip Bootloader.Idle).

Lemma respond_read_opcode :
  respond idle (frame [0x11])
  = (Bootloader.mk memory chip Bootloader.ReadAddress, [ACK]).
Proof. reflexivity. Qed.

Lemma respond_read_address (a : Z) :
  0 <= a < 2 ^ 32 ->
  respond (Bootloader.mk memory chip Bootloader.ReadAddress) (frame (be32 a))
  = (Bootloader.mk memory chip (Bootloader.ReadLength a), [ACK]).
Proof.
  intros Ha.
  assert (Hf : frame (be32 a) = be32 a ++ [xor_all (be32 a)])
    by apply frame_long, be32_bytes.
  rewrite Hf.
  unfold respond, Bootloader.device, Bootloader.step, be32.
  cbn [Bootloader.state app]. rewrite Z.eqb_refl.
  unfold Bootloader.goto. cbn [Bootloader.memory Bootloader.chip].
  by rewrite be32_value.
Qed.

Lemma respond_read_length (a n : Z) :
  1 <= n <= 256 ->
  respond (Bootloader.mk memory chip (Bootloader.ReadLength a)) (frame [n - 1])
  = (idle, ACK :: naive_read memory a n).
Proof.
  intros Hn. unfold frame, frame_checksum. rewrite complement_byte by lia.
  unfold respond, Bootloader.device, Bootloader.step.
  cbn [Bootloader.state app]. rewrite Z.eqb_refl.
  unfold Bootloader.goto, naive_read. cbn [Bootloader.memory Bootloader.chip].
  by replace (n - 1 + 1) with n by lia.
Qed.

Lemma read_on_device (a n : Z) (w : list (list Z)) :
  1 <= n <= 256 -> 0 <= a < 2 ^ 32 ->
  Connection.read a n (mkLink [] w idle)
  = (Returned (naive_read memory a n),
     mkLink [] (w ++ [frame [0x11]; frame (be32 a); frame [n - 1]]) idle).
Proof.
  intros Hn Ha. unfold Connection.read.
  destruct (n >? 256) eqn:Hc; [lia|]. clear Hc.
  change (CmdType.value CmdType.READ) with 0x11.
  erewrite bind_returned; cycle 1.
  { apply (send_acked _ _ []); [done | done |].
    cbn [pending dev]. by rewrite respond_read_opcode. }
  cbn [pending dev]. rewrite respond_read_opcode. cbn [fst].
  rewrite pack_I_be_be32 by done. simpl lift_sum. rewrite bind_ret.
  erewrite bind_returned; cycle 1.
  { apply (send_acked _ _ []); [done | apply be32_bytes |].
    cbn [pending dev]. by rewrite respond_read_address. }
  cbn [pending dev written]. rewrite respond_read_address by done. cbn [fst].
  erewrite bind_returned; cycle 1.
  { apply (send_acked _ _ (naive_read memory a n)).
    - done.
    - simpl. rewrite andb_true_r. apply is_byte_range. lia.
    - cbn [pending dev]. by rewrite respond_read_length. }
  cbn [pending dev written]. rewrite respond_read_length by done. cbn [fst].
  erewrite bind_returned; cycle 1.
  { apply serial_read_all. unfold naive_read. by rewrite length_map, length_seqZ. }
  unfold ret. by rewrite <- !app_assoc.
Qed.
End OnDevice.

Lemma naive_read_nonpos (memory : Z -> Z) (a size : Z) :
  size <= 0 -> naive_read memory a size = [].
Proof.
  intros Hs. unfold naive_read, seqZ.
  by replace (Z.to_nat size) with 0%nat by lia.
Qed.

Lemma naive_read_length (memory : Z -> Z) (a size : Z) :
  length (naive_read memory a size) = Z.to_nat size.
Proof. unfold naive_read. by rewrite length_map, length_seqZ. Qed.

Lemma naive_read_app (memory : Z -> Z) (a k r : Z) :
  0 <= k -> 0 <= r ->
  naive_read memory a (k + r)
  = naive_read memory a k ++ naive_read memory (a + k) r.
Proof.
  intros Hk Hr. unfold naive_read. by rewrite seqZ_app, map_app by done.
Qed.

Lemma naive_read_take (memory : Z -> Z) (a size : Z) :
  0 < size ->
  take 256 (naive_read memory a size) = naive_read memory a (Z.min size 256).
Proof.
  intros Hs.
  replace size with (Z.min size 256 + (size - Z.min size 256)) at 1 by lia.
  rewrite naive_read_app by lia.
  destruct (decide (size <= 256)).
  - rewrite take_ge; [|rewrite length_app, !naive_read_length; lia].
    rewrite (naive_read_nonpos _ _ (size - _)) by lia. by rewrite app_nil_r.
  - rewrite take_app_length'; [done|]. rewrite naive_read_length. lia.
Qed.

Lemma naive_read_drop (memory : Z -> Z) (a size : Z) :
  0 < size ->
  drop 256 (naive_read memory a size)
  = naive_read memory (a + Z.min size 256) (size - Z.min size 256).
Proof.
  intros Hs.
  replace size with (Z.min size 256 + (size - Z.min size 256)) at 1 by lia.
  rewrite naive_read_app by lia.
  destruct (decide (size <= 256)).
  - rewrite drop_ge; [|rewrite length_app, !naive_read_length; lia].
    by rewrite (naive_read_nonpos _ _ (size - _)) by lia.
  - rewrite drop_app_length'; [done|]. rewrite naive_read_length. lia.
Qed.

Section ChunkedRead.
Context {U : Type}.
Variable memory : Z -> Z.
Variable chip : list Z.
Variable progress_cb : option (Z -> Z -> U -> U).
Variable total : Z.

Local Abbreviation idle := (Bootloader.mk memory chip Bootloader.Idle).

Lemma read_loop_on_device (fuel : nat) :
  forall (size a rs : Z) (acc w : list (list Z)) (u : U),
    (Z.to_nat size <= fuel)%nat -> 0 <= a -> a + Z.max 0 size <= 2 ^ 32 ->
    exists segs u',
      Client.read_loop fuel progress_cb total a size rs acc
        (mkLink [] w idle, u)
      = (Returned segs,
         (mkLink []
            (w ++ concat (map (fun seg => wire_read seg.1 (len seg.2))
                              (segments a (naive_read memory a size))))
            idle, u'))
      /\ concat segs = concat acc ++ naive_read memory a size.
Proof.
  induction fuel as [|fuel IH]; intros size a rs acc w u Hfuel Ha Hend.
  - exists acc, u. rewrite naive_read_nonpos by lia.
    simpl. destruct (size >? 0) eqn:Hs; [lia|].
    by rewrite !app_nil_r.
  - destruct (decide (size <= 0)) as [Hs|Hs].
    { exists acc, u. rewrite naive_read_nonpos by lia.
      simpl. destruct (size >? 0) eqn:Hs'; [lia|]. by rewrite !app_nil_r. }
    rewrite segments_cons; cycle 1.
    { intros Hnil. apply (f_equal length) in Hnil.
      rewrite naive_read_length in Hnil. simpl in Hnil. lia. }
    rewrite naive_read_take, naive_read_drop by lia.
    set (k := Z.min size 256).
    set (u1 := match progress_cb with
               | Some cb => cb (rs + k) total u
               | None => u
               end).
    destruct (IH (size - k) (a + k) (rs + k)
                (acc ++ [naive_read memory a k]) (w ++ wire_read a k) u1)
      as (segs & u' & Hloop & Hsegs); [lia | lia | lia |].
    exists segs, u'. split.
    + simpl Client.read_loop. destruct (size >? 0) eqn:Hs'; [|lia].
      fold k. erewrite bind_returned; cycle 1.
      { apply on_link_returned. apply read_on_device; lia. }
      rewrite map_cons, concat_cons. cbn [fst snd].
      assert (Hk : len (naive_read memory a k) = k).
      { unfold len. rewrite naive_read_length. lia. }
      rewrite Hk, app_assoc.
      assert (Hnext : segments (a + 256) (naive_read memory (a + k) (size - k))
                      = segments (a + k) (naive_read memory (a + k) (size - k))).
      { destruct (decide (size <= 256)).
        - by rewrite (naive_read_nonpos _ _ (size - k)) by lia.
        - do 2 f_equal. lia. }
      rewrite Hnext, <- Hloop. by destruct progress_cb.
    + rewrite Hsegs, concat_app. simpl concat. rewrite app_nil_r, <- app_assoc.
      f_equal. rewrite <- naive_read_app by lia. f_equal. lia.
Qed.
End ChunkedRead.

Lemma serial_read_app {D : Type} (n : Z) (data rest : list Z)
    (w : list (list Z)) (d : D) :
  length data = Z.to_nat n ->
  serial_read n (mkLink (data ++ rest) w d) = (Returned data, mkLink rest w d).
Proof.
  intros Hn. unfold serial_read. cbn [pending written dev]. rewrite <- Hn.
  rewrite length_app, take_app_length, drop_app_length.
  destruct (_ <=? _)%nat eqn:Hle; [done|].
  apply Nat.leb_gt in Hle. lia.
Qed.

Lemma receive_ack_ok {D : Type} `{Device D} (rest : list Z)
    (w : list (list Z)) (d : D) :
  Connection._receive_ack (mkLink (ACK :: rest) w d)
  = (Returned tt, mkLink rest w d).
Proof. by rewrite receive_ack_step. Qed.

Section DeviceInfo.
Variable memory : Z -> Z.
Variable chip : list Z.

Local Abbreviation idle := (Bootloader.mk memory chip Bootloader.Idle).

Lemma respond_get_chip_id :
  respond idle (frame [0x02]) = (idle, [ACK; len chip - 1] ++ chip ++ [ACK]).
Proof. reflexivity. Qed.

Lemma get_chip_id_on_device (w : list (list Z)) :
  Connection.get_chip_id (mkLink [] w idle)
  = (Returned (int_from_bytes_big chip), mkLink [] (w ++ [frame [0x02]]) idle).
Proof.
  unfold Connection.get_chip_id.
  change (CmdType.value CmdType.GET_CHIP_ID) with 0x02.
  erewrite bind_returned; cycle 1.
  { apply (send_acked _ _ ([len chip - 1] ++ chip ++ [ACK])); [done | done |].
    cbn [pending dev]. by rewrite respond_get_chip_id. }
  cbn [pending dev written]. rewrite respond_get_chip_id. cbn [fst].
  erewrite bind_returned by by apply serial_read_app.
  simpl lift_sum. rewrite bind_ret.
  erewrite bind_returned; cycle 1.
  { apply serial_read_app. unfold len. lia. }
  cbv zeta. erewrite bind_returned by apply receive_ack_ok.
  done.
Qed.

Lemma get_info_on_device (self : ClientAttrs) (w : list (list Z)) :
  CmdType.GET_CHIP_ID ∈ _cmd_types self ->
  CmdType.READ ∈ _cmd_types self ->
  Client.get_info self (mkLink [] w idle)
  = (Returned (mkInfo (_version self) (int_from_bytes_big chip)
                 (naive_read memory 0x1FFFF7E8 12)
                 ((memory 0x1FFFF7E0 + 256 * memory 0x1FFFF7E1) * 1024)),
     mkLink []
       (w ++ [frame [0x02]] ++ wire_read 0x1FFFF7E8 12
          ++ wire_read 0x1FFFF7E0 2) idle).
Proof.
  intros Hid Hread. unfold Client.get_info.
  do 2 (case_decide; [done|]).
  erewrite bind_returned by apply get_chip_id_on_device.
  erewrite bind_returned by (apply read_on_device; lia).
  erewrite bind_returned by (apply read_on_device; lia).
  change (naive_read memory 0x1FFFF7E0 2)
    with [memory (0 + 0x1FFFF7E0); memory (1 + 0x1FFFF7E0)].
  simpl lift_sum. rewrite bind_ret. unfold ret, wire_read.
  by rewrite <- !app_assoc.
Qed.
End DeviceInfo.

(** ** The loops of the client are unrolled far enough *)

Create HintDb terminates.

Lemma terminates_ret {S A} (a : A) : terminates (@ret S A a).
Proof. intros s. discriminate. Qed.

Lemma terminates_raise {S A} (e : exn) : terminates (@raise S A e).
Proof. intros s. discriminate. Qed.

Lemma terminates_bind {S A B} (c : M S A) (k : A -> M S B) :
  terminates c -> (forall a, terminates (k a)) -> terminates (bind c k).
Proof.
  intros Hc Hk s. unfold bind. specialize (Hc s).
  destruct (c s) as [[a| e |] s']; [apply Hk | discriminate | done].
Qed.

Lemma terminates_lift_sum {S A} (r : exn + A) : terminates (@lift_sum S A r).
Proof. destruct r; intros s; discriminate. Qed.

#[export] Hint Resolve terminates_ret terminates_raise terminates_lift_sum
  : terminates.
#[export] Hint Extern 2 (terminates (bind _ _)) =>
  apply terminates_bind; [|intros ?] : terminates.
#[export] Hint Extern 3 (terminates (if ?b then _ else _)) =>
  destruct b : terminates.
#[export] Hint Extern 3 (terminates (match ?x with _ => _ end)) =>
  destruct x : terminates.

Section Terminates.
Context {D : Type} `{Device D}.

Lemma terminates_serial_write (data : list Z) :
  terminates (serial_write (D:=D) data).
Proof.
  intros l. unfold serial_write. by destruct (respond (dev l) data).
Qed.

Lemma terminates_serial_read (size : Z) :
  terminates (serial_read (D:=D) size).
Proof. intros l. unfold serial_read. by case_match. Qed.

Hint Resolve terminates_serial_write terminates_serial_read : terminates.

Lemma terminates_receive_ack : terminates (Connection._receive_ack (D:=D)).
Proof. unfold Connection._receive_ack. auto 10 with terminates. Qed.

Hint Resolve terminates_receive_ack : terminates.

Lemma terminates_send (data : list Z) :
  terminates (Connection._send (D:=D) data).
Proof. unfold Connection._send. auto 10 with terminates. Qed.

Hint Resolve terminates_send : terminates.

Lemma terminates_conn_read (a n : Z) :
  terminates (Connection.read (D:=D) a n).
Proof. unfold Connection.read. auto 20 with terminates. Qed.

Lemma terminates_conn_write (a : Z) (data : list Z) :
  terminates (Connection.write (D:=D) a data).
Proof. unfold Connection.write. cbv zeta. auto 20 with terminates. Qed.

Context {U : Type}.

Lemma terminates_on_link {A} (c : M (Link D) A) :
  terminates c -> terminates (Client.on_link (U:=U) c).
Proof.
  intros Hc [l u]. unfold Client.on_link. simpl. specialize (Hc l).
  by destruct (c l).
Qed.

Lemma terminates_call (cb : Z -> Z -> U -> U) (done total : Z) :
  terminates (Client.call (D:=D) cb done total).
Proof. intros s. discriminate. Qed.

Hint Resolve terminates_conn_read terminates_conn_write terminates_on_link
  terminates_call : terminates.

Lemma terminates_read_loop (progress_cb : option (Z -> Z -> U -> U))
    (total : Z) (fuel : nat) :
  forall a size rs acc,
    (Z.to_nat size <= fuel)%nat ->
    terminates (Client.read_loop (D:=D) fuel progress_cb total a size rs acc).
Proof.
  induction fuel as [|fuel IH]; intros a size rs acc Hfuel; simpl.
  - destruct (size >? 0) eqn:Hs; [lia | auto with terminates].
  - destruct (size >? 0) eqn:Hs; [|auto with terminates].
    apply terminates_bind; [auto with terminates|]. intros seg.
    apply terminates_bind; [destruct progress_cb; auto with terminates|].
    intros _. apply IH. lia.
Qed.

Lemma terminates_client_read (self : ClientAttrs) (a size : Z)
    (progress_cb : option (Z -> Z -> U -> U)) :
  terminates (Client.read (D:=D) self a size progress_cb).
Proof.
  unfold Client.read. case_decide; [auto with terminates|].
  apply terminates_bind; [destruct progress_cb; auto with terminates|].
  intros _. apply terminates_bind; [|auto with terminates].
  by apply terminates_read_loop.
Qed.

Lemma terminates_write_loop (progress_cb : option (Z -> Z -> U -> U))
    (total : Z) (fuel : nat) :
  forall a data ws,
    (length data <= fuel)%nat ->
    terminates (Client.write_loop (D:=D) fuel progress_cb total a data ws).
Proof.
  induction fuel as [|fuel IH]; intros a data ws Hfuel; simpl.
  - destruct data; [|simpl in Hfuel; lia].
    rewrite bool_decide_false by (intros Hne; by apply Hne).
    auto with terminates.
  - case_bool_decide as Hne; [|auto with terminates].
    apply terminates_bind; [auto with terminates|]. intros _.
    apply terminates_bind; [destruct progress_cb; auto with terminates|].
    intros _. apply IH. rewrite length_drop.
    assert (1 <= length data)%nat by (destruct data; [done|simpl; lia]).
    unfold len. lia.
Qed.

Lemma terminates_client_write (self : ClientAttrs) (a : Z) (data : list Z)
    (progress_cb : option (Z -> Z -> U -> U)) :
  terminates (Client.write (D:=D) self a data progress_cb).
Proof.
  unfold Client.write. case_decide; [auto with terminates|].
  apply terminates_bind; [destruct progress_cb; auto with terminates|].
  intros _. by apply terminates_write_loop.
Qed.
End Terminates.

(** * The claims *)

(** ** Framing *)

(** C1. For every non-empty body the generator yields the body followed
    by exactly one checksum byte: the XOR of all body bytes masked to 8
    bits, except for a one-byte body, whose checksum is the bitwise
    complement of that byte on its 8 bits. When the body consists of
    bytes, this frame is what [_send] writes to the transport. *)
Theorem frame_is_body_then_checksum (body : list Z) :
  body <> [] ->
  _get_data_with_checksum body = inr (body ++ [frame_checksum body])
  /\ 0 <= frame_checksum body < 256
  /\ (forall b, body = [b] ->
      forall n, 0 <= n < 8 ->
        Z.testbit (frame_checksum body) n = negb (Z.testbit b n))
  /\ (length body <> 1%nat -> frame_checksum body = Z.land 0xFF (xor_all body))
  /\ (forallb is_byte body = true ->
      forall (D : Type) (device : Device D) (l : Link D),
        written (snd (Connection._send body l))
        = written l ++ [body ++ [frame_checksum body]]).
Proof.
  intros Hne. split; [by apply generator_yields_frame|].
  split; [apply frame_checksum_range|]. split; [|split].
  - intros b -> n Hn. unfold frame_checksum.
    rewrite Z.land_spec, Z.lnot_spec by lia.
    replace (Z.testbit 255 n) with true; [done|].
    assert (Hc : n = 0 \/ n = 1 \/ n = 2 \/ n = 3 \/ n = 4 \/ n = 5
                 \/ n = 6 \/ n = 7) by lia.
    destruct_or!; by subst n.
  - intros Hlen. unfold frame_checksum. by destruct body as [|b [|b' rest]].
  - intros Hb D device l.
    rewrite (send_step body (frame body)) by by apply bytes_of_frame.
    by rewrite receive_ack_written.
Qed.

Lemma frame_is_body_then_checksum_witness :
  [0x1F; 0xFF; 0xF7; 0xE0] <> []
  /\ _get_data_with_checksum [0x1F; 0xFF; 0xF7; 0xE0]
     = inr [0x1F; 0xFF; 0xF7; 0xE0; 0xF7].
Proof.
  split; [discriminate|].
  apply (frame_is_body_then_checksum [0x1F; 0xFF; 0xF7; 0xE0]). discriminate.
Defined.

Example single_byte_checksum_is_complement :
  _get_data_with_checksum [0x43] = inr [0x43; 0xBC]
  /\ frame_checksum [0x43] <> xor_all [0x43].
Proof. split; [reflexivity | discriminate]. Qed.

(** ** Acknowledgement *)

(** C6. [_receive_ack] takes exactly one byte off the transport, writes
    nothing, and: returns on [0x79]; raises the exception that reports a
    NACK on [0x1F]; raises the exception that reports an unknown
    response, with the byte in its message, on every other byte. The
    fault carries the byte: for a byte of the transport (0..255) the
    message ends in its two lowercase hexadecimal digits, so that the
    byte is read back from the outcome, and no byte is read back from
    the outcome on [0x79] or [0x1F]. *)
Theorem receive_ack_one_byte {D : Type} `{Device D}
    (b : Z) (rest : list Z) (w : list (list Z)) (d : D) :
  Connection._receive_ack (mkLink (b :: rest) w d)
  = (if decide (b = 0x79) then Returned tt
     else if decide (b = 0x1F) then Raised (Exception "received NACK")
     else Raised (Exception ("received unknown response: 0x" +:+ hex02 b)),
     mkLink rest w d)
  /\ (0 <= b < 256 ->
      carried_byte (Connection._receive_ack (mkLink (b :: rest) w d)).1
      = if decide (b = 0x79 \/ b = 0x1F) then None else Some b).
Proof.
  split; [apply receive_ack_step|].
  intros Hb. rewrite receive_ack_step. cbn [fst].
  repeat case_decide; try tauto; try reflexivity.
  cbn [carried_byte]. by apply unknown_response_byte_hex02.
Qed.

Lemma receive_ack_one_byte_witness :
  0 <= 0x0a < 256
  /\ Connection._receive_ack (mkLink [0x0a; 0x79] [] tt)
     = (Raised (Exception "received unknown response: 0x0a"),
        mkLink [0x79] [] tt)
  /\ carried_byte (Connection._receive_ack (mkLink [0x0a; 0x79] [] tt)).1
     = Some 0x0a.
Proof.
  split; [lia|]. split.
  - exact (proj1 (receive_ack_one_byte 0x0a [0x79] [] tt)).
  - apply (proj2 (receive_ack_one_byte 0x0a [0x79] [] tt)). lia.
Defined.

Example receive_ack_unknown_0a :
  fst (Connection._receive_ack (mkLink [0x0a; 0x79] [] tt))
  = Raised (Exception "received unknown response: 0x0a").
Proof. reflexivity. Qed.

Example receive_ack_unknown_extremes :
  fst (Connection._receive_ack (mkLink [0x00] [] tt))
  = Raised (Exception "received unknown response: 0x00")
  /\ fst (Connection._receive_ack (mkLink [0xff] [] tt))
     = Raised (Exception "received unknown response: 0xff")
  /\ unknown_response_byte "received unknown response: 0x" = None
  /\ unknown_response_byte "received NACK" = None.
Proof. repeat split. Qed.

(** ** Capability gating *)

Section Gating.
Context {D : Type} `{Device D} {U : Type}.
Variable self : ClientAttrs.

Lemma get_info_gated (l : Link D) :
  CmdType.GET_CHIP_ID ∉ _cmd_types self \/ CmdType.READ ∉ _cmd_types self ->
  Client.get_info self l
  = (Raised (Exception (if decide (CmdType.GET_CHIP_ID ∈ _cmd_types self)
                        then "read not supported"
                        else "get chip id not supported")), l).
Proof.
  intros Hreq. unfold Client.get_info.
  repeat case_decide; try done. tauto.
Qed.

Lemma set_protection_gated (kind : Protection.t) (l : Link D) :
  match kind with
  | Protection.PROTECT_READ => CmdType.PROTECT_READ
  | Protection.UNPROTECT_READ => CmdType.UNPROTECT_READ
  | Protection.PROTECT_WRITE => CmdType.PROTECT_WRITE
  | Protection.UNPROTECT_WRITE => CmdType.UNPROTECT_WRITE
  end ∉ _cmd_types self ->
  Client.set_protection self kind l
  = (Raised (Exception match kind with
                       | Protection.PROTECT_READ =>
                           "protect read not supported"
                       | Protection.UNPROTECT_READ =>
                           "unprotect read not supported"
                       | Protection.PROTECT_WRITE =>
                           "protect write not supported"
                       | Protection.UNPROTECT_WRITE =>
                           "unprotect write not supported"
                       end), l).
Proof.
  intros Hreq. unfold Client.set_protection.
  destruct kind; by case_decide.
Qed.

Lemma erase_gated (pages : option (list Z)) (l : Link D) :
  CmdType.ERASE ∉ _cmd_types self ->
  Client.erase self pages l = (Raised (Exception "erase not supported"), l).
Proof. intros Hreq. unfold Client.erase. by case_decide. Qed.

Lemma execute_gated (start_address : Z) (l : Link D) :
  CmdType.EXECUTE ∉ _cmd_types self ->
  Client.execute self start_address l
  = (Raised (Exception "execute not supported"), l).
Proof. intros Hreq. unfold Client.execute. by case_decide. Qed.

Lemma read_gated (start_address size : Z)
    (progress_cb : option (Z -> Z -> U -> U)) (s : Link D * U) :
  CmdType.READ ∉ _cmd_types self ->
  Client.read self start_address size progress_cb s
  = (Raised (Exception "read not supported"), s).
Proof. intros Hreq. unfold Client.read. by case_decide. Qed.

Lemma write_gated (start_address : Z) (data : list Z)
    (progress_cb : option (Z -> Z -> U -> U)) (s : Link D * U) :
  CmdType.WRITE ∉ _cmd_types self ->
  Client.write self start_address data progress_cb s
  = (Raised (Exception "write not supported"), s).
Proof. intros Hreq. unfold Client.write. by case_decide. Qed.
End Gating.

(** C2. Each high-level operation of the client, called while a command
    type it requires is absent from the capability set, raises the
    exception that reports the capability as not supported, and leaves
    the transport and the state of a progress callback as they were:
    nothing is written, nothing is read, the callback is not called. *)
Theorem capability_checked_before_transmission
    {D : Type} `{Device D} {U : Type}
    (self : ClientAttrs) (l : Link D) (u : U) :
  (CmdType.GET_CHIP_ID ∉ _cmd_types self \/ CmdType.READ ∉ _cmd_types self ->
   Client.get_info self l
   = (Raised (Exception (if decide (CmdType.GET_CHIP_ID ∈ _cmd_types self)
                         then "read not supported"
                         else "get chip id not supported")), l))
  /\ (CmdType.READ ∉ _cmd_types self ->
      forall start_address size progress_cb,
        Client.read self start_address size progress_cb (l, u)
        = (Raised (Exception "read not supported"), (l, u)))
  /\ (CmdType.WRITE ∉ _cmd_types self ->
      forall start_address data progress_cb,
        Client.write self start_address data progress_cb (l, u)
        = (Raised (Exception "write not supported"), (l, u)))
  /\ (CmdType.ERASE ∉ _cmd_types self ->
      forall pages,
        Client.erase self pages l
        = (Raised (Exception "erase not supported"), l))
  /\ (CmdType.EXECUTE ∉ _cmd_types self ->
      forall start_address,
        Client.execute self start_address l
        = (Raised (Exception "execute not supported"), l))
  /\ (CmdType.PROTECT_READ ∉ _cmd_types self ->
      Client.set_protection self Protection.PROTECT_READ l
      = (Raised (Exception "protect read not supported"), l))
  /\ (CmdType.UNPROTECT_READ ∉ _cmd_types self ->
      Client.set_protection self Protection.UNPROTECT_READ l
      = (Raised (Exception "unprotect read not supported"), l))
  /\ (CmdType.PROTECT_WRITE ∉ _cmd_types self ->
      Client.set_protection self Protection.PROTECT_WRITE l
      = (Raised (Exception "protect write not supported"), l))
  /\ (CmdType.UNPROTECT_WRITE ∉ _cmd_types self ->
      Client.set_protection self Protection.UNPROTECT_WRITE l
      = (Raised (Exception "unprotect write not supported"), l)).
Proof.
  repeat split.
  - intros Hreq. by apply get_info_gated.
  - intros Hreq a n cb. by apply read_gated.
  - intros Hreq a data cb. by apply write_gated.
  - intros Hreq pages. by apply erase_gated.
  - intros Hreq a. by apply execute_gated.
  - apply (set_protection_gated self Protection.PROTECT_READ).
  - apply (set_protection_gated self Protection.UNPROTECT_READ).
  - apply (set_protection_gated self Protection.PROTECT_WRITE).
  - apply (set_protection_gated self Protection.UNPROTECT_WRITE).
Qed.

Lemma capability_checked_before_transmission_witness :
  (CmdType.WRITE ∉ _cmd_types (mkClient 0x22 {[CmdType.READ]}))
  /\ Client.write (mkClient 0x22 {[CmdType.READ]}) 0x08000000 [1; 2; 3]
       (Some recorder) (mkLink [ACK; ACK; ACK] [] tt, [])
     = (Raised (Exception "write not supported"),
        (mkLink [ACK; ACK; ACK] [] tt, [])).
Proof.
  assert (Hreq : CmdType.WRITE ∉ _cmd_types (mkClient 0x22 {[CmdType.READ]})).
  { simpl. intros Hin. apply elem_of_singleton in Hin. discriminate Hin. }
  split; [exact Hreq|].
  by apply (capability_checked_before_transmission
              (mkClient 0x22 {[CmdType.READ]})
              (mkLink [ACK; ACK; ACK] [] tt) []).
Defined.

(** ** Protection *)

(** C9, as the code has it. [set_protection] with the protect-write kind
    always fails and leaves the transport untouched: with
    [NotImplementedError] when PROTECT_WRITE is in the capability set,
    and with the exception that reports the missing capability when it
    is not. *)
Theorem protect_write_always_fails
    {D : Type} `{Device D} (self : ClientAttrs) (l : Link D) :
  Client.set_protection self Protection.PROTECT_WRITE l
  = (Raised (if decide (CmdType.PROTECT_WRITE ∈ _cmd_types self)
             then NotImplementedError
             else Exception "protect write not supported"), l).
Proof.
  unfold Client.set_protection, Connection.protect_write.
  by repeat case_decide.
Qed.

(** C9, as stated, fails: with an empty capability set the protect-write
    kind does not end in [NotImplementedError]. *)
Lemma protect_write_not_always_not_supported :
  fst (Client.set_protection (mkClient 0x22 ∅) Protection.PROTECT_WRITE
         (mkLink [] [] tt))
  <> Raised NotImplementedError.
Proof. discriminate. Qed.

(** ** Erase: argument bounds *)

(** C7. [erase] with an explicit list of no page or of more than 255
    pages raises [ValueError] and leaves the transport untouched, on the
    connection and, when ERASE is in the capability set, on the client. *)
Theorem erase_page_count_checked_first
    {D : Type} `{Device D} (pages : list Z) (l : Link D) :
  (length pages = 0 \/ 255 < length pages)%nat ->
  Connection.erase (Some pages) l
  = (Raised (ValueError "unsupported pages length"), l)
  /\ (forall self, CmdType.ERASE ∈ _cmd_types self ->
      Client.erase self (Some pages) l
      = (Raised (ValueError "unsupported pages length"), l)).
Proof.
  intros Hlen.
  assert (He : Connection.erase (Some pages) l
               = (Raised (ValueError "unsupported pages length"), l)).
  { unfold Connection.erase, bind at 1, len.
    destruct (_ || _) eqn:Hc; [done|].
    apply orb_false_iff in Hc. lia. }
  split; [exact He|].
  intros self Hcap. unfold Client.erase. by case_decide.
Qed.

Lemma erase_page_count_checked_first_witness :
  (length (repeat 7 256) = 0 \/ 255 < length (repeat 7 256))%nat
  /\ Connection.erase (Some (repeat 7 256)) (mkLink [ACK; ACK] [] tt)
     = (Raised (ValueError "unsupported pages length"),
        mkLink [ACK; ACK] [] tt).
Proof.
  assert (Hlen : (length (repeat 7 256) = 0
                  \/ 255 < length (repeat 7 256))%nat).
  { right. rewrite repeat_length. lia. }
  split; [exact Hlen|].
  by apply (erase_page_count_checked_first (repeat 7 256)
              (mkLink [ACK; ACK] [] tt)).
Defined.

(** ** Reading nothing *)

(** C10. With READ in the capability set, [read] of size 0 returns the
    empty byte string and leaves the transport untouched: no frame is
    written and no byte is read. A progress callback, if supplied, has
    been called once, with (0, 0). *)
Theorem read_of_nothing
    {D : Type} `{Device D} {U : Type} (self : ClientAttrs)
    (start_address : Z) (progress_cb : option (Z -> Z -> U -> U))
    (l : Link D) (u : U) :
  CmdType.READ ∈ _cmd_types self ->
  Client.read self start_address 0 progress_cb (l, u)
  = (Returned [],
     (l, match progress_cb with
         | Some cb => cb 0 0 u
         | None => u
         end)).
Proof.
  intros Hcap. unfold Client.read. case_decide; [done|].
  by destruct progress_cb.
Qed.

Lemma read_of_nothing_witness :
  (CmdType.READ ∈ _cmd_types (mkClient 0x22 {[CmdType.READ]}))
  /\ Client.read (mkClient 0x22 {[CmdType.READ]}) 0x08000000 0
       (Some recorder) (mkLink [] [] tt, [])
     = (Returned [], (mkLink [] [] tt, [(0, 0)])).
Proof.
  assert (Hcap : CmdType.READ ∈ _cmd_types (mkClient 0x22 {[CmdType.READ]})).
  { simpl. by apply elem_of_singleton. }
  split; [exact Hcap|].
  by apply (read_of_nothing (mkClient 0x22 {[CmdType.READ]}) 0x08000000
              (Some recorder) (mkLink [] [] tt) []).
Defined.


(** ** Chunked write *)

(** C4. With WRITE in the capability set, on a link where the device
    acknowledges every frame, [write] of [data] at [start_address]
    (bytes, the range within the 32-bit address space) returns after
    writing exactly the frames of one wire write per segment, in order.
    There are [ceil(len(data) / 256)] segments, each of 1 to 256 bytes;
    put end to end they are the data, and each is addressed at
    [start_address] plus the number of bytes of the segments before it.
    For 300 bytes at [0x08000000] these are 256 bytes at [0x08000000]
    and 44 bytes at [0x08000100]. *)
Theorem write_issues_ceil_segments {U : Type} (self : ClientAttrs)
    (start_address : Z) (data : list Z)
    (progress_cb : option (Z -> Z -> U -> U))
    (rest : list Z) (w : list (list Z)) (u : U) :
  CmdType.WRITE ∈ _cmd_types self ->
  forallb is_byte data = true ->
  0 <= start_address -> start_address + len data <= 2 ^ 32 ->
  (exists u',
     Client.write self start_address data progress_cb
       (mkLink (repeat ACK (3 * length (segments start_address data)) ++ rest)
               w tt, u)
     = (Returned tt,
        (mkLink rest
           (w ++ concat (map (fun seg => wire_write seg.1 seg.2)
                             (segments start_address data))) tt, u')))
  /\ length (segments start_address data)
     = Z.to_nat (ceil_div_256 (len data))
  /\ Forall (fun seg => (1 <= length seg.2 <= 256)%nat)
            (segments start_address data)
  /\ concat (map snd (segments start_address data)) = data
  /\ (forall k seg, segments start_address data !! k = Some seg ->
        seg.1 = start_address
                + len (concat (map snd (take k (segments start_address data)))))
  /\ (start_address = 0x08000000 -> length data = 300%nat ->
      segments start_address data
      = [(0x08000000, take 256 data); (0x08000100, drop 256 data)]).
Proof.
  intros Hcap Hb Ha Hend. split; [|split; [|split; [|split; [|split]]]].
  - unfold Client.write. case_decide; [done|]. cbv zeta.
    set (u0 := match progress_cb with
               | Some cb => cb 0 (len data) u
               | None => u
               end).
    destruct (write_loop_scripted progress_cb (len data) rest (length data)
                data start_address 0 w u0) as [u' Hloop]; try done.
    exists u'. rewrite <- Hloop. by destruct progress_cb.
  - apply segments_length.
  - apply segments_sizes.
  - apply segments_concat.
  - apply segments_contiguous.
  - intros -> Hlen.
    rewrite segments_cons by (intros ->; done).
    rewrite segments_cons; cycle 1.
    { intros Hd. apply (f_equal length) in Hd. rewrite length_drop in Hd.
      simpl in Hd. lia. }
    rewrite drop_drop, (drop_ge data (256 + 256)) by lia.
    rewrite segments_nil, (take_ge (drop 256 data)); [done|].
    rewrite length_drop. lia.
Qed.

Lemma write_issues_ceil_segments_witness :
  (CmdType.WRITE ∈ _cmd_types (mkClient 0x22 {[CmdType.WRITE]}))
  /\ forallb is_byte (repeat 7 300) = true
  /\ 0 <= 0x08000000
  /\ 0x08000000 + len (repeat 7 300) <= 2 ^ 32
  /\ segments 0x08000000 (repeat 7 300)
     = [(0x08000000, repeat 7 256); (0x08000100, repeat 7 44)].
Proof.
  assert (Hcap : CmdType.WRITE ∈ _cmd_types (mkClient 0x22 {[CmdType.WRITE]})).
  { simpl. by apply elem_of_singleton. }
  assert (Hb : forallb is_byte (repeat 7 300) = true) by reflexivity.
  assert (Ha : 0 <= 0x08000000) by lia.
  assert (Hend : 0x08000000 + len (repeat 7 300) <= 2 ^ 32)
    by (vm_compute; discriminate).
  split; [exact Hcap|]. split; [exact Hb|]. split; [exact Ha|].
  split; [exact Hend|].
  apply (write_issues_ceil_segments (U:=unit)
           (mkClient 0x22 {[CmdType.WRITE]}) 0x08000000 (repeat 7 300)
           None [] [] tt Hcap Hb Ha Hend); reflexivity.
Defined.

Example write_300_bytes :
  Client.write (mkClient 0x22 {[CmdType.WRITE]}) 0x08000000 (repeat 7 300)
    (Some recorder) (mkLink (repeat ACK 6) [] tt, [])
  = (Returned tt,
     (mkLink []
        (wire_write 0x08000000 (repeat 7 256)
           ++ wire_write 0x08000100 (repeat 7 44)) tt,
      [(0, 300); (256, 300); (300, 300)])).
Proof. vm_compute. reflexivity. Qed.

(** ** Chunked read *)

(** C5. With READ in the capability set, against a device that holds
    [memory] and serves the read command, [read] of [size] bytes at
    [start_address] (the range within the 32-bit address space) returns
    exactly what a naive single-shot read of that range gives, for every
    size, whether or not a multiple of 256. On the wire it is one read
    command per segment of at most 256 bytes, the segments consecutive
    from [start_address]. *)

Theorem chunked_read_is_naive_read {U : Type} (self : ClientAttrs)
    (memory : Z -> Z) (chip : list Z) (start_address size : Z)
    (progress_cb : option (Z -> Z -> U -> U)) (w : list (list Z)) (u : U) :
  CmdType.READ ∈ _cmd_types self ->
  0 <= start_address -> 0 <= size -> start_address + size <= 2 ^ 32 ->
  exists u',
    Client.read self start_address size progress_cb
      (mkLink [] w (Bootloader.mk memory chip Bootloader.Idle), u)
    = (Returned (naive_read memory start_address size),
       (mkLink []
          (w ++ concat (map (fun seg => wire_read seg.1 (len seg.2))
                            (segments start_address
                               (naive_read memory start_address size))))
          (Bootloader.mk memory chip Bootloader.Idle), u')).
Proof.
  intros Hcap Ha Hsize Hend. unfold Client.read. case_decide; [done|].
  cbv zeta.
  set (u0 := match progress_cb with
             | Some cb => cb 0 size u
             | None => u
             end).
  destruct (read_loop_on_device memory chip progress_cb size (Z.to_nat size)
              size start_address 0 [] w u0)
    as (segs & u' & Hloop & Hsegs); [lia | lia | lia |].
  exists u'. simpl in Hsegs.
  rewrite (bind_returned _ _ _
             (mkLink [] w (Bootloader.mk memory chip Bootloader.Idle), u0) tt)
    by by destruct progress_cb.
  erewrite bind_returned by exact Hloop.
  unfold ret. by rewrite Hsegs.
Qed.


Lemma chunked_read_is_naive_read_witness :
  (CmdType.READ ∈ _cmd_types (mkClient 0x22 {[CmdType.READ]}))
  /\ 0 <= 0x08000000
  /\ 0 <= 600
  /\ 0x08000000 + 600 <= 2 ^ 32
  /\ exists calls,
       Client.read (mkClient 0x22 {[CmdType.READ]}) 0x08000000 600
         (Some recorder)
         (mkLink [] [] (Bootloader.mk (fun a => a mod 251) [0x04; 0x10]
                          Bootloader.Idle), [])
       = (Returned (naive_read (fun a => a mod 251) 0x08000000 600),
          (mkLink []
             ([] ++ concat
                      (map (fun seg => wire_read seg.1 (len seg.2))
                           (segments 0x08000000
                              (naive_read (fun a => a mod 251)
                                 0x08000000 600))))
             (Bootloader.mk (fun a => a mod 251) [0x04; 0x10]
                Bootloader.Idle), calls)).
Proof.
  assert (Hcap : CmdType.READ ∈ _cmd_types (mkClient 0x22 {[CmdType.READ]})).
  { simpl. by apply elem_of_singleton. }
  assert (Ha : 0 <= 0x08000000) by lia.
  assert (Hs : 0 <= 600) by lia.
  assert (Hend : 0x08000000 + 600 <= 2 ^ 32) by lia.
  split; [exact Hcap|]. split; [exact Ha|]. split; [exact Hs|].
  split; [exact Hend|].
  exact (chunked_read_is_naive_read (mkClient 0x22 {[CmdType.READ]})
           (fun a => a mod 251) [0x04; 0x10] 0x08000000 600 (Some recorder)
           [] [] Hcap Ha Hs Hend).
Defined.

Example read_600_bytes :
  fst (Client.read (mkClient 0x22 {[CmdType.READ]}) 0x08000000 600
         (Some recorder)
         (mkLink [] [] (Bootloader.mk (fun a => a mod 251) [0x04; 0x10]
                          Bootloader.Idle), []))
  = Returned (naive_read (fun a => a mod 251) 0x08000000 600)
  /\ snd (snd (Client.read (mkClient 0x22 {[CmdType.READ]}) 0x08000000 600
                 (Some recorder)
                 (mkLink [] [] (Bootloader.mk (fun a => a mod 251) [0x04; 0x10]
                                  Bootloader.Idle), [])))
     = [(0, 600); (256, 600); (512, 600); (600, 600)].
Proof. split; vm_compute; reflexivity. Qed.

(** ** Erase: the frames *)

(** C3, as the code has it. On a link where the device acknowledges
    every frame, [erase] with no page list writes two frames: the erase
    opcode alone with its checksum ([0x43 0xBC]), then the sentinel
    [0xFF] alone with its checksum ([0xFF 0x00]). With a list of 1 to 255
    page bytes it writes the same opcode frame, then one frame whose body
    is the count minus one followed by the pages, closed by the XOR of
    that body. *)
Theorem erase_sends_opcode_then_pages (rest : list Z) (w : list (list Z)) :
  Connection.erase None (mkLink (ACK :: ACK :: rest) w tt)
  = (Returned tt, mkLink rest (w ++ [[0x43; 0xBC]; [0xFF; 0x00]]) tt)
  /\ (forall pages,
        (1 <= length pages <= 255)%nat -> forallb is_byte pages = true ->
        Connection.erase (Some pages) (mkLink (ACK :: ACK :: rest) w tt)
        = (Returned tt,
           mkLink rest
             (w ++ [[0x43; 0xBC];
                    ([len pages - 1] ++ pages)
                      ++ [xor_all ([len pages - 1] ++ pages)]])
             tt)).
Proof.
  split; [apply erase_all_scripted|].
  intros pages Hlen Hb. by apply erase_pages_scripted.
Qed.

Lemma erase_sends_opcode_then_pages_witness :
  (1 <= length [1; 2; 3] <= 255)%nat
  /\ forallb is_byte [1; 2; 3] = true
  /\ Connection.erase (Some [1; 2; 3]) (mkLink [ACK; ACK] [] tt)
     = (Returned tt, mkLink [] [[0x43; 0xBC]; [2; 1; 2; 3; 2]] tt).
Proof.
  assert (Hlen : (1 <= length [1; 2; 3] <= 255)%nat) by (simpl; lia).
  assert (Hb : forallb is_byte [1; 2; 3] = true) by reflexivity.
  split; [exact Hlen|]. split; [exact Hb|].
  exact (proj2 (erase_sends_opcode_then_pages [] []) [1; 2; 3] Hlen Hb).
Defined.

(** C3, as stated, fails: erasing everything writes no frame whose body
    is the opcode followed by the sentinel. *)
Lemma erase_all_has_no_opcode_sentinel_frame :
  ~ (exists f,
       In f (written (snd (Connection.erase None (mkLink [ACK; ACK] [] tt))))
       /\ frame_body f = [0x43; 0xFF]).
Proof.
  intros (f & Hin & Hbody). vm_compute in Hin.
  destruct Hin as [<-|[<-|[]]]; discriminate Hbody.
Qed.

(** ** Device info *)

(** C8. With GET_CHIP_ID and READ in the capability set, against a
    device that holds [memory], [get_info] reads 12 bytes at
    [0x1FFFF7E8] and then 2 bytes at [0x1FFFF7E0], and its [flash_size]
    is these two bytes taken least significant first, times 1024. When
    the two bytes are [0x00 0x04] the flash size is 1,048,576. *)
Theorem get_info_flash_size (self : ClientAttrs) (memory : Z -> Z)
    (chip : list Z) (w : list (list Z)) :
  CmdType.GET_CHIP_ID ∈ _cmd_types self ->
  CmdType.READ ∈ _cmd_types self ->
  Client.get_info self (mkLink [] w (Bootloader.mk memory chip Bootloader.Idle))
  = (Returned (mkInfo (_version self) (int_from_bytes_big chip)
                 (naive_read memory 0x1FFFF7E8 12)
                 ((memory 0x1FFFF7E0 + 256 * memory 0x1FFFF7E1) * 1024)),
     mkLink []
       (w ++ [frame [0x02]] ++ wire_read 0x1FFFF7E8 12
          ++ wire_read 0x1FFFF7E0 2)
       (Bootloader.mk memory chip Bootloader.Idle))
  /\ (forall info l,
        Client.get_info self
          (mkLink [] w (Bootloader.mk memory chip Bootloader.Idle))
        = (Returned info, l) ->
        memory 0x1FFFF7E0 = 0x00 -> memory 0x1FFFF7E1 = 0x04 ->
        flash_size info = 1048576).
Proof.
  intros Hid Hread. split; [by apply get_info_on_device|].
  intros info l Hinfo H0 H1.
  rewrite get_info_on_device in Hinfo by done.
  injection Hinfo as <- _. simpl. rewrite H0, H1. reflexivity.
Qed.

Lemma get_info_flash_size_witness :
  (CmdType.GET_CHIP_ID
     ∈ _cmd_types (mkClient 0x22 {[CmdType.GET_CHIP_ID; CmdType.READ]}))
  /\ (CmdType.READ
        ∈ _cmd_types (mkClient 0x22 {[CmdType.GET_CHIP_ID; CmdType.READ]}))
  /\ fst (Client.get_info
            (mkClient 0x22 {[CmdType.GET_CHIP_ID; CmdType.READ]})
            (mkLink [] []
               (Bootloader.mk (fun a => if a =? 0x1FFFF7E1 then 0x04 else 0x00)
                  [0x04; 0x10] Bootloader.Idle)))
     = Returned (mkInfo 0x22 0x0410 (repeat 0 12) 1048576).
Proof.
  assert (Hid : CmdType.GET_CHIP_ID
                  ∈ _cmd_types
                      (mkClient 0x22 {[CmdType.GET_CHIP_ID; CmdType.READ]})).
  { simpl. apply elem_of_union_l. by apply elem_of_singleton. }
  assert (Hread : CmdType.READ
                    ∈ _cmd_types
                        (mkClient 0x22 {[CmdType.GET_CHIP_ID; CmdType.READ]})).
  { simpl. apply elem_of_union_r. by apply elem_of_singleton. }
  split; [exact Hid|]. split; [exact Hread|].
  rewrite (proj1 (get_info_flash_size
                    (mkClient 0x22 {[CmdType.GET_CHIP_ID; CmdType.READ]})
                    (fun a => if a =? 0x1FFFF7E1 then 0x04 else 0x00)
                    [0x04; 0x10] [] Hid Hread)).
  reflexivity.
Defined.

Example flash_size_register_frames :
  wire_read 0x1FFFF7E0 2
  = [[0x11; 0xEE]; [0x1F; 0xFF; 0xF7; 0xE0; 0xF7]; [0x01; 0xFE]].
Proof. reflexivity. Qed.

(** * Further properties of the code *)

(** ** Edge behaviour of the wire commands *)

Lemma bind_raised {S A B} (c : M S A) (k : A -> M S B) (s s' : S) (e : exn) :
  c s = (Raised e, s') -> bind c k s = (Raised e, s').
Proof. intros Hc. unfold bind. by rewrite Hc. Qed.

Lemma send_out_of_range {D : Type} `{Device D} (data : list Z) (l : Link D) :
  data <> [] -> forallb is_byte data = false ->
  Connection._send data l
  = (Raised (ValueError "bytes must be in range(0, 256)"), l).
Proof.
  intros Hne Hb. unfold Connection._send. apply bind_raised.
  rewrite generator_yields_frame by done. unfold frame. simpl.
  unfold to_bytes. by rewrite forallb_app, Hb.
Qed.

(** X1. [_send] writes nothing unless the whole frame can be built: an
    empty body raises [ValueError('invalid data size')], a body with an
    item outside [range(0, 256)] raises the [ValueError] of [bytes], and
    in both cases the link is left as it was. *)
Theorem send_invalid_body_writes_nothing {D : Type} `{Device D}
    (data : list Z) (l : Link D) :
  Connection._send [] l = (Raised (ValueError "invalid data size"), l)
  /\ (data <> [] -> forallb is_byte data = false ->
      Connection._send data l
      = (Raised (ValueError "bytes must be in range(0, 256)"), l)).
Proof. split; [reflexivity | apply send_out_of_range]. Qed.

Lemma send_invalid_body_writes_nothing_witness :
  [300] <> []
  /\ forallb is_byte [300] = false
  /\ Connection._send [300] (mkLink [ACK] [] tt)
     = (Raised (ValueError "bytes must be in range(0, 256)"),
        mkLink [ACK] [] tt).
Proof.
  assert (Hne : [300] <> []) by discriminate.
  assert (Hb : forallb is_byte [300] = false) by reflexivity.
  split; [exact Hne|]. split; [exact Hb|].
  exact (proj2 (send_invalid_body_writes_nothing [300] (mkLink [ACK] [] tt))
           Hne Hb).
Defined.

Lemma send_refused (body rest : list Z) (w : list (list Z)) (b : Z) :
  body <> [] -> forallb is_byte body = true -> b <> 0x79 ->
  Connection._send body (mkLink (b :: rest) w tt)
  = (Raised (Exception (if decide (b = 0x1F) then "received NACK"
                        else "received unknown response: 0x" +:+ hex02 b)),
     mkLink rest (w ++ [frame body]) tt).
Proof.
  intros Hne Hb Hnack.
  rewrite (send_step body (frame body)) by by apply bytes_of_frame.
  simpl. rewrite app_nil_r, receive_ack_step.
  by repeat case_decide.
Qed.

(** X2. When the device answers a frame with anything but ACK, [_send]
    raises (NACK for [0x1F], unknown response otherwise) after the frame
    has been written exactly once and exactly one byte has been read:
    there is no retry. *)
Theorem send_refused_once (body rest : list Z) (w : list (list Z)) (b : Z) :
  body <> [] -> forallb is_byte body = true -> b <> 0x79 ->
  Connection._send body (mkLink (b :: rest) w tt)
  = (Raised (Exception (if decide (b = 0x1F) then "received NACK"
                        else "received unknown response: 0x" +:+ hex02 b)),
     mkLink rest (w ++ [frame body]) tt).
Proof. apply send_refused. Qed.

Lemma send_refused_once_witness :
  [0x43] <> []
  /\ forallb is_byte [0x43] = true
  /\ 0x1F <> 0x79
  /\ Connection._send [0x43] (mkLink [0x1F; 0x79] [] tt)
     = (Raised (Exception "received NACK"), mkLink [0x79] [[0x43; 0xBC]] tt).
Proof.
  assert (Hne : [0x43] <> []) by discriminate.
  assert (Hb : forallb is_byte [0x43] = true) by reflexivity.
  assert (Hr : 0x1F <> 0x79) by discriminate.
  split; [exact Hne|]. split; [exact Hb|]. split; [exact Hr|].
  exact (send_refused_once [0x43] [0x79] [] 0x1F Hne Hb Hr).
Defined.

Lemma read_above_256 {D : Type} `{Device D}
    (start_address size : Z) (l : Link D) :
  256 < size ->
  Connection.read start_address size l
  = (Raised (ValueError "unsupported size"), l).
Proof.
  intros Hs. unfold Connection.read. by destruct (size >? 256) eqn:Hc; [|lia].
Qed.

Lemma read_not_positive (start_address size : Z) (rest : list Z)
    (w : list (list Z)) :
  size <= 0 -> 0 <= start_address < 2 ^ 32 ->
  Connection.read start_address size (mkLink (ACK :: ACK :: rest) w tt)
  = (Raised (ValueError "bytes must be in range(0, 256)"),
     mkLink rest (w ++ [frame [0x11]; frame (be32 start_address)]) tt).
Proof.
  intros Hs Ha. unfold Connection.read.
  destruct (size >? 256) eqn:Hc; [lia|]. clear Hc.
  erewrite bind_returned by by apply send_scripted.
  rewrite pack_I_be_be32 by done. simpl lift_sum. rewrite bind_ret.
  erewrite bind_returned by (apply send_scripted; [done | apply be32_bytes]).
  apply bind_raised. rewrite <- app_assoc.
  apply send_out_of_range; [done|].
  simpl. rewrite andb_true_r. apply not_true_is_false.
  rewrite is_byte_range. lia.
Qed.

Lemma write_out_of_bounds {D : Type} `{Device D}
    (start_address : Z) (data : list Z) (l : Link D) :
  (length data = 0 \/ 256 < length data)%nat ->
  Connection.write start_address data l
  = (Raised (ValueError "unsupported data"), l).
Proof.
  intros Hlen. unfold Connection.write. cbv zeta.
  destruct (_ || _) eqn:Hc; [done|].
  apply orb_false_iff in Hc. unfold len in Hc. lia.
Qed.

Lemma pack_I_be_out_of_range (a : Z) :
  a < 0 \/ 2 ^ 32 <= a -> pack_I_be a = inl StructError.
Proof.
  intros Ha. unfold pack_I_be.
  destruct (_ && _) eqn:Hr; [|done]. apply andb_true_iff in Hr. lia.
Qed.

(** X3. An address outside the 32-bit range is found only when it is
    packed, after the opcode frame has been written and acknowledged:
    [read], [write] and [execute] then raise [struct.error], with the
    opcode frame on the wire and nothing after it. *)
Theorem address_checked_after_opcode (start_address : Z) (rest : list Z)
    (w : list (list Z)) :
  start_address < 0 \/ 2 ^ 32 <= start_address ->
  (forall size, size <= 256 ->
     Connection.read start_address size (mkLink (ACK :: rest) w tt)
     = (Raised StructError, mkLink rest (w ++ [frame [0x11]]) tt))
  /\ (forall data, (1 <= length data <= 256)%nat ->
      Connection.write start_address data (mkLink (ACK :: rest) w tt)
      = (Raised StructError, mkLink rest (w ++ [frame [0x31]]) tt))
  /\ Connection.execute start_address (mkLink (ACK :: rest) w tt)
     = (Raised StructError, mkLink rest (w ++ [frame [0x21]]) tt).
Proof.
  intros Ha. split; [|split].
  - intros size Hs. unfold Connection.read.
    destruct (size >? 256) eqn:Hc; [lia|]. clear Hc.
    erewrite bind_returned by by apply send_scripted.
    by rewrite pack_I_be_out_of_range.
  - intros data Hlen. unfold Connection.write. cbv zeta.
    destruct (_ || _) eqn:Hc.
    { apply orb_true_iff in Hc. unfold len in Hc. lia. }
    erewrite bind_returned by by apply send_scripted.
    by rewrite pack_I_be_out_of_range.
  - unfold Connection.execute.
    erewrite bind_returned by by apply send_scripted.
    by rewrite pack_I_be_out_of_range.
Qed.

Lemma address_checked_after_opcode_witness :
  (2 ^ 32 < 0 \/ 2 ^ 32 <= 2 ^ 32)
  /\ Connection.execute (2 ^ 32) (mkLink [ACK; ACK] [] tt)
     = (Raised StructError, mkLink [ACK] [[0x21; 0xDE]] tt).
Proof.
  assert (Ha : 2 ^ 32 < 0 \/ 2 ^ 32 <= 2 ^ 32) by (right; discriminate).
  split; [exact Ha|].
  exact (proj2 (proj2 (address_checked_after_opcode (2 ^ 32) [ACK] [] Ha))).
Defined.

(** X4. On a link where the device acknowledges, [execute] writes the
    opcode frame [0x21 0xDE] and then the frame of the four address
    bytes, most significant first, and returns after exactly two
    acknowledgements; so does [Client.execute] when EXECUTE is in the
    capability set. *)
Theorem execute_sends_opcode_then_address (self : ClientAttrs)
    (start_address : Z) (rest : list Z) (w : list (list Z)) :
  0 <= start_address < 2 ^ 32 ->
  Connection.execute start_address (mkLink (ACK :: ACK :: rest) w tt)
  = (Returned tt,
     mkLink rest (w ++ [frame [0x21]; frame (be32 start_address)]) tt)
  /\ (CmdType.EXECUTE ∈ _cmd_types self ->
      Client.execute self start_address (mkLink (ACK :: ACK :: rest) w tt)
      = (Returned tt,
         mkLink rest (w ++ [frame [0x21]; frame (be32 start_address)]) tt)).
Proof.
  intros Ha.
  assert (He : Connection.execute start_address (mkLink (ACK :: ACK :: rest) w tt)
               = (Returned tt,
                  mkLink rest (w ++ [frame [0x21]; frame (be32 start_address)]) tt)).
  { unfold Connection.execute.
    erewrite bind_returned by by apply send_scripted.
    rewrite pack_I_be_be32 by done. simpl lift_sum. rewrite bind_ret.
    rewrite send_scripted; [|done|apply be32_bytes]. by rewrite <- app_assoc. }
  split; [exact He|]. intros Hcap. unfold Client.execute. by case_decide.
Qed.

Lemma execute_sends_opcode_then_address_witness :
  0 <= 0x08000000 < 2 ^ 32
  /\ Connection.execute 0x08000000 (mkLink [ACK; ACK] [] tt)
     = (Returned tt,
        mkLink [] [[0x21; 0xDE]; [0x08; 0x00; 0x00; 0x00; 0x08]] tt).
Proof.
  assert (Ha : 0 <= 0x08000000 < 2 ^ 32) by (split; [discriminate | reflexivity]).
  split; [exact Ha|].
  exact (proj1 (execute_sends_opcode_then_address (mkClient 0x22 ∅)
                  0x08000000 [] [] Ha)).
Defined.

(** X5. With WRITE in the capability set, [write] of an empty byte
    string returns at once and leaves the link as it was; a progress
    callback, if supplied, has been called once, with (0, 0). *)
Theorem write_of_nothing {D : Type} `{Device D} {U : Type}
    (self : ClientAttrs) (start_address : Z)
    (progress_cb : option (Z -> Z -> U -> U)) (l : Link D) (u : U) :
  CmdType.WRITE ∈ _cmd_types self ->
  Client.write self start_address [] progress_cb (l, u)
  = (Returned tt,
     (l, match progress_cb with
         | Some cb => cb 0 0 u
         | None => u
         end)).
Proof.
  intros Hcap. unfold Client.write. case_decide; [done|].
  by destruct progress_cb.
Qed.

Lemma write_of_nothing_witness :
  (CmdType.WRITE ∈ _cmd_types (mkClient 0x22 {[CmdType.WRITE]}))
  /\ Client.write (mkClient 0x22 {[CmdType.WRITE]}) 0x08000000 []
       (Some recorder) (mkLink [] [] tt, [])
     = (Returned tt, (mkLink [] [] tt, [(0, 0)])).
Proof.
  assert (Hcap : CmdType.WRITE ∈ _cmd_types (mkClient 0x22 {[CmdType.WRITE]})).
  { simpl. by apply elem_of_singleton. }
  split; [exact Hcap|].
  exact (write_of_nothing (mkClient 0x22 {[CmdType.WRITE]}) 0x08000000
           (Some recorder) (mkLink [] [] tt) [] Hcap).
Defined.

(** ** Capability discovery *)

Lemma of_value_value (c : CmdType.t) : CmdType.of_value (CmdType.value c) = Some c.
Proof. by destruct c. Qed.

Lemma value_of_value (i : Z) (c : CmdType.t) :
  CmdType.of_value i = Some c -> CmdType.value c = i.
Proof.
  destruct i as [|p|p]; try discriminate.
  - by intros [= <-].
  - do 9 (try destruct p as [p|p|]); try discriminate; by intros [= <-].
Qed.

(** X6. [CmdType(i)] and [.value] are inverse to each other: every
    member is found again from its value, a byte that is found is the
    value of the member found, and the bytes that raise are exactly
    those that are the value of no member. *)
Theorem cmdtype_round_trip :
  (forall c, CmdType.of_value (CmdType.value c) = Some c)
  /\ (forall i c, CmdType.of_value i = Some c -> CmdType.value c = i)
  /\ (forall i, CmdType.of_value i = None <-> forall c, CmdType.value c <> i).
Proof.
  split; [apply of_value_value|]. split; [apply value_of_value|].
  intros i. split.
  - intros Hnone c <-. by rewrite of_value_value in Hnone.
  - intros Hno. destruct (CmdType.of_value i) as [c|] eqn:Hc; [|done].
    by apply value_of_value, Hno in Hc.
Qed.

Lemma cmdtype_round_trip_witness :
  CmdType.of_value 0x43 = Some CmdType.ERASE
  /\ CmdType.value CmdType.ERASE = 0x43.
Proof.
  assert (Hv : CmdType.of_value 0x43 = Some CmdType.ERASE) by reflexivity.
  split; [exact Hv|].
  exact (proj1 (proj2 cmdtype_round_trip) 0x43 CmdType.ERASE Hv).
Defined.

Lemma cmd_types_of_values (cmds : list CmdType.t) :
  cmd_types_of (map CmdType.value cmds) = inr cmds.
Proof.
  induction cmds as [|c cmds IH]; [done|]. simpl.
  by rewrite of_value_value, IH.
Qed.

Lemma cmd_types_of_unknown (cmds : list CmdType.t) (i : Z) (more : list Z) :
  CmdType.of_value i = None ->
  cmd_types_of (map CmdType.value cmds ++ i :: more)
  = inl (ValueError (pretty i +:+ " is not a valid CmdType")).
Proof.
  intros Hi. induction cmds as [|c cmds IH]; simpl.
  - by rewrite Hi.
  - by rewrite of_value_value, IH.
Qed.

Lemma length_to_nat_len {A} (l : list A) : length l = Z.to_nat (len l).
Proof. unfold len. lia. Qed.

Lemma get_commands_decodes_lemma (ver : Z) (cmds : list CmdType.t)
    (rest : list Z) (w : list (list Z)) :
  Connection.get_commands
    (mkLink ([ACK; len cmds; ver] ++ map CmdType.value cmds ++ [ACK] ++ rest)
            w tt)
  = (Returned (CommandsRes.mk ver (list_to_set cmds)),
     mkLink rest (w ++ [[0x00; 0xFF]]) tt).
Proof.
  unfold Connection.get_commands.
  erewrite bind_returned by by apply send_scripted.
  erewrite bind_returned by by apply (serial_read_app 1 [len cmds]).
  simpl lift_sum. rewrite bind_ret.
  erewrite bind_returned by by apply (serial_read_app 1 [ver]).
  simpl lift_sum. rewrite bind_ret.
  erewrite bind_returned; cycle 1.
  { apply serial_read_app. rewrite length_map. apply length_to_nat_len. }
  rewrite cmd_types_of_values. simpl lift_sum. rewrite bind_ret.
  erewrite bind_returned by apply receive_ack_ok.
  done.
Qed.

(** X7. [get_commands], answered with ACK, a count, a version, that
    many values of command types and a closing ACK, writes the single
    frame [0x00 0xFF], consumes exactly these bytes and returns the
    version with the set of those command types. *)
Theorem get_commands_decodes (ver : Z) (cmds : list CmdType.t)
    (rest : list Z) (w : list (list Z)) :
  Connection.get_commands
    (mkLink ([ACK; len cmds; ver] ++ map CmdType.value cmds ++ [ACK] ++ rest)
            w tt)
  = (Returned (CommandsRes.mk ver (list_to_set cmds)),
     mkLink rest (w ++ [[0x00; 0xFF]]) tt).
Proof. apply get_commands_decodes_lemma. Qed.

(** X8. When the device lists a byte that is the value of no command
    type, [get_commands] raises [ValueError] naming the first such byte,
    after reading the whole list and before reading the closing ACK. *)
Theorem get_commands_rejects_unknown_opcode (ver i : Z)
    (cmds : list CmdType.t) (more rest : list Z) (w : list (list Z)) :
  CmdType.of_value i = None ->
  Connection.get_commands
    (mkLink ([ACK; len (map CmdType.value cmds ++ i :: more); ver]
             ++ (map CmdType.value cmds ++ i :: more) ++ rest) w tt)
  = (Raised (ValueError (pretty i +:+ " is not a valid CmdType")),
     mkLink rest (w ++ [[0x00; 0xFF]]) tt).
Proof.
  intros Hi. unfold Connection.get_commands.
  erewrite bind_returned by by apply send_scripted.
  erewrite bind_returned by by apply (serial_read_app 1 [len _]).
  simpl lift_sum. rewrite bind_ret.
  erewrite bind_returned by by apply (serial_read_app 1 [ver]).
  simpl lift_sum. rewrite bind_ret.
  erewrite bind_returned; cycle 1.
  { apply serial_read_app. apply length_to_nat_len. }
  by rewrite cmd_types_of_unknown.
Qed.

Lemma get_commands_rejects_unknown_opcode_witness :
  CmdType.of_value 0x05 = None
  /\ Connection.get_commands
       (mkLink [ACK; 3; 0x22; 0x00; 0x05; 0x11; ACK] [] tt)
     = (Raised (ValueError "5 is not a valid CmdType"),
        mkLink [ACK] [[0x00; 0xFF]] tt).
Proof.
  assert (Hi : CmdType.of_value 0x05 = None) by reflexivity.
  split; [exact Hi|].
  exact (get_commands_rejects_unknown_opcode 0x22 0x05
           [CmdType.GET_COMMANDS] [0x11] [ACK] [] Hi).
Defined.

(** X9. [get_protection] writes the single frame [0x01 0xFE], reads a
    version byte, the status and counter bytes and one closing byte; it
    returns the three values when that byte is ACK and raises
    otherwise. *)
Theorem get_protection_exchange (ver status counter b : Z) (rest : list Z)
    (w : list (list Z)) :
  Connection.get_protection
    (mkLink ([ACK; ver; status; counter; b] ++ rest) w tt)
  = (if decide (b = 0x79)
     then Returned (ProtectionRes.mk ver status counter)
     else if decide (b = 0x1F) then Raised (Exception "received NACK")
     else Raised (Exception ("received unknown response: 0x" +:+ hex02 b)),
     mkLink rest (w ++ [[0x01; 0xFE]]) tt).
Proof.
  unfold Connection.get_protection.
  erewrite bind_returned by by apply send_scripted.
  erewrite bind_returned by by apply (serial_read_app 1 [ver]).
  simpl lift_sum. rewrite bind_ret.
  erewrite bind_returned by by apply (serial_read_app 2 [status; counter]).
  simpl lift_sum. rewrite bind_ret.
  unfold bind. rewrite receive_ack_step. by repeat case_decide.
Qed.

(** ** Opening a session *)

(** X10. With [skip_init], [connect] neither writes nor reads. Without
    it, [connect] writes the single byte [0x7F], with no checksum, and
    reads one byte: on ACK it returns and leaves the connection open, on
    any other byte it raises and has closed the connection. *)
Theorem connect_sends_wake_byte (port : string) (baudrate : Z) :
  (forall (D : Type) (device : Device D) (s : Link D * bool),
     connect port baudrate true s = (Returned tt, s))
  /\ (forall (b : Z) (rest : list Z) (w : list (list Z)) (closed : bool),
        connect port baudrate false (mkLink (b :: rest) w tt, closed)
        = if decide (b = 0x79)
          then (Returned tt, (mkLink rest (w ++ [[0x7F]]) tt, closed))
          else (Raised (Exception
                          (if decide (b = 0x1F) then "received NACK"
                           else "received unknown response: 0x" +:+ hex02 b)),
                (mkLink rest (w ++ [[0x7F]]) tt, true))).
Proof.
  split; [done|]. intros b rest w closed.
  unfold connect, close_on_exception, bind, Client.on_link, serial_write.
  cbn [fst snd respond scripted pending written dev app].
  rewrite receive_ack_step, app_nil_r. by repeat case_decide.
Qed.

Section SessionFacts.
Context {D : Type} `{Device D}.

Lemma on_link_flag {A} (c : M (Link D) A) (s : Link D * bool) :
  (Client.on_link c s).2.2 = s.2.
Proof. unfold Client.on_link. by destruct (c s.1). Qed.

Lemma bind_flag {A B} (c : M (Link D * bool) A) (k : A -> M (Link D * bool) B) :
  (forall s, (c s).2.2 = s.2) -> (forall a s, (k a s).2.2 = s.2) ->
  forall s, (bind c k s).2.2 = s.2.
Proof.
  intros Hc Hk s. unfold bind. specialize (Hc s).
  destruct (c s) as [[a|e|] s']; simpl in *; [|done|done].
  by rewrite Hk.
Qed.

Lemma close_on_exception_settles {A} (c : M (Link D * bool) A)
    (s : Link D * bool) :
  terminates c -> (forall s', (c s').2.2 = s'.2) ->
  match (close_on_exception c s).1 with
  | Returned _ => (close_on_exception c s).2.2 = s.2
  | Raised _ => (close_on_exception c s).2.2 = true
  | OutOfFuel => False
  end.
Proof.
  intros Ht Hflag. unfold close_on_exception.
  specialize (Ht s). specialize (Hflag s).
  destruct (c s) as [[a|e|] s']; simpl in *; done.
Qed.

Lemma terminates_get_commands : terminates (Connection.get_commands (D:=D)).
Proof.
  unfold Connection.get_commands.
  repeat first
    [ apply terminates_send | apply terminates_receive_ack
    | apply terminates_serial_read | apply terminates_lift_sum
    | apply terminates_ret | apply terminates_bind; [|intros ?] ].
Qed.

(** X11. Whatever the device does, [create_client] either returns a
    client and leaves the connection open as it was, or raises and has
    closed the connection. *)
Theorem create_client_closes_on_failure (port : string) (baudrate : Z)
    (skip_init : bool) (l : Link D) (closed : bool) :
  match (create_client port baudrate skip_init (l, closed)).1 with
  | Returned _ => (create_client port baudrate skip_init (l, closed)).2.2 = closed
  | Raised _ => (create_client port baudrate skip_init (l, closed)).2.2 = true
  | OutOfFuel => False
  end.
Proof.
  unfold create_client.
  set (discover := close_on_exception _).
  assert (Hd : forall s,
             match (discover s).1 with
             | Returned _ => (discover s).2.2 = s.2
             | Raised _ => (discover s).2.2 = true
             | OutOfFuel => False
             end).
  { intros s. apply close_on_exception_settles.
    - apply terminates_bind; [|intros ?; apply terminates_ret].
      apply terminates_on_link, terminates_get_commands.
    - apply bind_flag; [apply on_link_flag | done]. }
  assert (Hc : match (connect port baudrate skip_init (l, closed)).1 with
               | Returned _ =>
                   (connect port baudrate skip_init (l, closed)).2.2 = closed
               | Raised _ =>
                   (connect port baudrate skip_init (l, closed)).2.2 = true
               | OutOfFuel => False
               end).
  { unfold connect. destruct skip_init; [done|].
    apply (close_on_exception_settles _ (l, closed)).
    - apply terminates_bind; [|intros ?].
      + apply terminates_on_link, terminates_serial_write.
      + apply terminates_on_link, terminates_receive_ack.
    - apply bind_flag; [apply on_link_flag | intros; apply on_link_flag]. }
  unfold bind.
  destruct (connect port baudrate skip_init (l, closed)) as [[[]|e|] s1];
    simpl in *; [|done|done].
  specialize (Hd s1). rewrite Hc in Hd. exact Hd.
Qed.
End SessionFacts.

(** X12. On a link where the device acknowledges the wake byte (unless
    skipped) and answers get-commands with a version and a list of
    command types, [create_client] returns a client holding that version
    and that set, after writing the wake byte and the frame
    [0x00 0xFF]. *)
Theorem create_client_discovers_capabilities (port : string) (baudrate : Z)
    (skip_init : bool) (ver : Z) (cmds : list CmdType.t) (rest : list Z)
    (w : list (list Z)) (closed : bool) :
  create_client port baudrate skip_init
    (mkLink ((if skip_init then [] else [ACK])
             ++ [ACK; len cmds; ver] ++ map CmdType.value cmds ++ [ACK] ++ rest)
            w tt, closed)
  = (Returned (mkClient ver (list_to_set cmds)),
     (mkLink rest
        (w ++ (if skip_init then [] else [[0x7F]]) ++ [[0x00; 0xFF]]) tt,
      closed)).
Proof.
  unfold create_client.
  assert (Hconn :
    connect port baudrate skip_init
      (mkLink ((if skip_init then [] else [ACK])
               ++ [ACK; len cmds; ver] ++ map CmdType.value cmds
               ++ [ACK] ++ rest) w tt, closed)
    = (Returned tt,
       (mkLink ([ACK; len cmds; ver] ++ map CmdType.value cmds ++ [ACK] ++ rest)
               (w ++ (if skip_init then [] else [[0x7F]])) tt, closed))).
  { destruct skip_init.
    - unfold connect, ret. by rewrite app_nil_r.
    - unfold connect, close_on_exception, bind, Client.on_link, serial_write.
      cbn [fst snd respond scripted pending written dev app].
      by rewrite receive_ack_ok, app_nil_r. }
  erewrite bind_returned by exact Hconn.
  unfold close_on_exception.
  erewrite bind_returned; cycle 1.
  { apply on_link_returned. apply get_commands_decodes_lemma. }
  by rewrite <- app_assoc.
Qed.

(** ** The protection action *)

Section ProtectionAction.
Context {D : Type} `{Device D}.

Lemma send_written (body : list Z) (l : Link D) :
  body <> [] -> forallb is_byte body = true ->
  written (Connection._send body l).2 = written l ++ [frame body].
Proof.
  intros Hne Hb.
  rewrite (send_step body (frame body)) by by apply bytes_of_frame.
  by rewrite receive_ack_written.
Qed.

Lemma then_receive_ack_written {A} (c : M (Link D) A) (l : Link D) :
  written (bind c (fun _ => Connection._receive_ack) l).2 = written (c l).2.
Proof.
  unfold bind. destruct (c l) as [[a|e|] l']; [|done|done].
  apply receive_ack_written.
Qed.

Lemma then_receive_ack_terminates {A} (c : M (Link D) A) :
  terminates c -> terminates (bind c (fun _ => Connection._receive_ack)).
Proof.
  intros Hc. apply terminates_bind; [done|]. intros _.
  apply terminates_receive_ack.
Qed.

Lemma optional_protection_step (client : ClientAttrs) (flag : bool)
    (kind : Protection.t) (op : Z) (l : Link D) :
  (kind = Protection.PROTECT_READ /\ op = 0x82)
  \/ (kind = Protection.UNPROTECT_READ /\ op = 0x92) ->
  ((if flag then Client.set_protection client kind else ret tt) l).1 <> OutOfFuel
  /\ exists extra,
       written ((if flag then Client.set_protection client kind else ret tt) l).2
       = written l ++ extra
       /\ sublist extra [frame [op]].
Proof.
  intros Hkind. destruct flag; cycle 1.
  { split; [done|]. exists []. rewrite app_nil_r. split; [done|].
    apply sublist_nil_l. }
  destruct Hkind as [[-> ->]|[-> ->]]; unfold Client.set_protection;
    case_decide;
    try (split; [done|]; exists []; rewrite app_nil_r; split;
         [done | apply sublist_nil_l]).
  - split; [apply then_receive_ack_terminates, terminates_send|].
    exists [frame [0x82]]. split; [|done].
    unfold Connection.protect_read.
    rewrite then_receive_ack_written. by apply send_written.
  - split; [apply then_receive_ack_terminates, terminates_send|].
    exists [frame [0x92]]. split; [|done].
    unfold Connection.unprotect_read.
    rewrite then_receive_ack_written. by apply send_written.
Qed.

Lemma act_protection_result (client : ClientAttrs)
    (args : ProtectionArgs.t) (l : Link D) :
  ProtectionArgs.protect_write args = true ->
  exists e l' extra,
    _act_protection client args l = (Raised e, l')
    /\ written l' = written l ++ extra
    /\ sublist extra [frame [0x82]; frame [0x92]].
Proof.
  intros Hpw. unfold _act_protection. rewrite Hpw.
  destruct (optional_protection_step client (ProtectionArgs.protect_read args)
              Protection.PROTECT_READ 0x82 l) as (Ht1 & x1 & Hw1 & Hs1);
    [by left|].
  unfold bind at 1.
  remember ((if ProtectionArgs.protect_read args
             then Client.set_protection client Protection.PROTECT_READ
             else ret tt) l) as r1 eqn:Hr1.
  clear Hr1. destruct r1 as [[[]|e1|] l1]; simpl in Ht1, Hw1;
    [|clear Ht1|by destruct Ht1].
  2:{ exists e1, l1, x1. split; [done|]. split; [done|].
      by apply (sublist_inserts_r [frame [0x92]] x1 [frame [0x82]]). }
  destruct (optional_protection_step client (ProtectionArgs.unprotect_read args)
              Protection.UNPROTECT_READ 0x92 l1) as (Ht2 & x2 & Hw2 & Hs2);
    [by right|].
  unfold bind at 1.
  remember ((if ProtectionArgs.unprotect_read args
             then Client.set_protection client Protection.UNPROTECT_READ
             else ret tt) l1) as r2 eqn:Hr2.
  clear Hr2. destruct r2 as [[[]|e2|] l2]; simpl in Ht2, Hw2;
    [|clear Ht2|by destruct Ht2].
  2:{ exists e2, l2, (x1 ++ x2).
      rewrite Hw2, Hw1, <- app_assoc. split; [done|]. split; [done|].
      by apply (sublist_app x1 [_] x2 [_]). }
  assert (Hpw3 : exists e,
             Client.set_protection client Protection.PROTECT_WRITE l2
             = (Raised e, l2)).
  { unfold Client.set_protection, Connection.protect_write.
    case_decide; by eexists. }
  destruct Hpw3 as [e3 He3]. unfold bind at 1. rewrite He3.
  exists e3, l2, (x1 ++ x2).
  rewrite Hw2, Hw1, <- app_assoc. split; [done|]. split; [done|].
  by apply (sublist_app x1 [_] x2 [_]).
Qed.

(** X13. When the protect-write flag is set, [_act_protection] always
    raises: at most the protect-read and unprotect-read frames have been
    written, in this order, and the unprotect-write frame is never
    sent. *)
Theorem act_protection_stops_at_protect_write (client : ClientAttrs)
    (args : ProtectionArgs.t) (l : Link D) :
  ProtectionArgs.protect_write args = true ->
  exists e l' extra,
    _act_protection client args l = (Raised e, l')
    /\ written l' = written l ++ extra
    /\ sublist extra [frame [0x82]; frame [0x92]]
    /\ frame [0x73] ∉ extra.
Proof.
  intros Hpw.
  destruct (act_protection_result client args l Hpw)
    as (e & l' & extra & Hr & Hw & Hs).
  exists e, l', extra. repeat split; try done.
  intros Hin. eapply elem_of_sublist in Hin; [|exact Hs].
  apply elem_of_cons in Hin as [Hin|Hin]; [discriminate|].
  apply list_elem_of_singleton in Hin. discriminate.
Qed.
End ProtectionAction.

Lemma act_protection_stops_at_protect_write_witness :
  ProtectionArgs.protect_write (ProtectionArgs.mk true false true true) = true
  /\ exists e l' extra,
       _act_protection
         (mkClient 0x22 {[CmdType.PROTECT_READ; CmdType.UNPROTECT_WRITE]})
         (ProtectionArgs.mk true false true true)
         (mkLink [ACK; ACK; ACK; ACK] [] tt)
       = (Raised e, l')
       /\ written l' = written (mkLink [ACK; ACK; ACK; ACK] [] tt) ++ extra
       /\ sublist extra [frame [0x82]; frame [0x92]]
       /\ frame [0x73] ∉ extra.
Proof.
  assert (Hpw : ProtectionArgs.protect_write
                  (ProtectionArgs.mk true false true true) = true)
    by reflexivity.
  split; [exact Hpw|].
  exact (act_protection_stops_at_protect_write
           (mkClient 0x22 {[CmdType.PROTECT_READ; CmdType.UNPROTECT_WRITE]})
           (ProtectionArgs.mk true false true true)
           (mkLink [ACK; ACK; ACK; ACK] [] tt) Hpw).
Defined.

(** ** Progress reports of a write *)

Lemma progress_marks_last (a : Z) (data : list Z) :
  forall done,
    last (done :: progress_marks done
                    (map (fun seg => len seg.2) (segments a data)))
    = Some (done + len data).
Proof.
  apply (segments_ind (fun _ data segs => forall done,
           last (done :: progress_marks done (map (fun seg => len seg.2) segs))
           = Some (done + len data))).
  - intros _ done. simpl. f_equal. unfold len. simpl. lia.
  - intros a' data' Hne IH done. rewrite map_cons. cbn [progress_marks snd].
    rewrite last_cons_cons, IH. f_equal.
    rewrite <- (take_drop 256 data') at 3. unfold len.
    rewrite length_app. lia.
Qed.

Lemma progress_marks_sorted (sizes : list Z) :
  Forall (fun n => 0 < n) sizes ->
  forall done, Sorted Z.lt (done :: progress_marks done sizes).
Proof.
  induction 1 as [|n sizes Hn Hsizes IH]; intros done; simpl.
  - repeat constructor.
  - constructor; [apply IH|]. constructor. lia.
Qed.

Lemma segment_sizes_positive (a : Z) (data : list Z) :
  Forall (fun n => 0 < n) (map (fun seg => len seg.2) (segments a data)).
Proof.
  apply Forall_map. eapply Forall_impl; [apply segments_sizes|].
  intros seg Hseg. simpl in *. unfold len. lia.
Qed.

Section WriteTrace.
Context {U : Type}.
Variable cb : Z -> Z -> U -> U.
Variable total : Z.
Variable rest : list Z.

Lemma write_loop_scripted_trace (fuel : nat) :
  forall (data : list Z) (a ws : Z) (w : list (list Z)) (u : U),
    (length data <= fuel)%nat -> forallb is_byte data = true ->
    0 <= a -> a + len data <= 2 ^ 32 ->
    Client.write_loop fuel (Some cb) total a data ws
      (mkLink (repeat ACK (3 * length (segments a data)) ++ rest) w tt, u)
    = (Returned tt,
       (mkLink rest
          (w ++ concat (map (fun seg => wire_write seg.1 seg.2)
                            (segments a data))) tt,
        fold_left (fun u done => cb done total u)
          (progress_marks ws (map (fun seg => len seg.2) (segments a data)))
          u)).
Proof.
  induction fuel as [|fuel IH]; intros data a ws w u Hfuel Hb Ha Hend.
  - destruct data; [|simpl in Hfuel; lia]. simpl. by rewrite app_nil_r.
  - destruct (decide (data = [])) as [->|Hne].
    { simpl. by rewrite app_nil_r. }
    rewrite segments_cons by done.
    assert (Hlen : (1 <= length data)%nat) by (destruct data; [done|simpl; lia]).
    replace (3 * length ((a, take 256 data) :: segments (a + 256) (drop 256 data)))%nat
      with (3 + 3 * length (segments (a + 256) (drop 256 data)))%nat
      by (simpl; lia).
    rewrite repeat_app, <- app_assoc.
    remember (repeat ACK (3 * length (segments (a + 256) (drop 256 data))))
      as tail eqn:Htail.
    simpl Client.write_loop. rewrite bool_decide_true by done.
    rewrite take_segment, drop_segment.
    erewrite bind_returned; cycle 1.
    { apply on_link_returned. apply write_scripted.
      - rewrite length_take. lia.
      - rewrite <- (take_drop 256 data), forallb_app in Hb.
        by apply andb_true_iff in Hb as [? ?].
      - unfold len in Hend. lia. }
    assert (Hb' : forallb is_byte (drop 256 data) = true).
    { rewrite <- (take_drop 256 data), forallb_app in Hb.
      by apply andb_true_iff in Hb as [? ?]. }
    assert (Hl : len (drop 256 data) = Z.max 0 (len data - 256)).
    { unfold len. rewrite length_drop. lia. }
    assert (Hn : 0 <= len data) by apply len_nonneg.
    assert (Hk : len (take 256 data) = Z.min (len data) 256).
    { unfold len. rewrite length_take. lia. }
    rewrite map_cons, concat_cons, map_cons. cbn [fst snd progress_marks fold_left].
    rewrite Hk, app_assoc.
    specialize (IH (drop 256 data) (a + Z.min (len data) 256)
                  (ws + Z.min (len data) 256) (w ++ wire_write a (take 256 data))
                  (cb (ws + Z.min (len data) 256) total u)).
    rewrite segments_next, <- Htail in IH. rewrite <- IH; [done | | done | lia | lia].
    rewrite length_drop. lia.
Qed.
End WriteTrace.

(** X14. On a link where the device acknowledges every frame, a
    progress callback given to [write] is called once with (0, N) and
    then once after each segment with the bytes written so far and N.
    The reported counts increase strictly and the last one is N. *)
Theorem write_reports_progress {U : Type} (self : ClientAttrs)
    (start_address : Z) (data : list Z) (cb : Z -> Z -> U -> U)
    (rest : list Z) (w : list (list Z)) (u : U) :
  CmdType.WRITE ∈ _cmd_types self ->
  forallb is_byte data = true ->
  0 <= start_address -> start_address + len data <= 2 ^ 32 ->
  snd (snd (Client.write self start_address data (Some cb)
              (mkLink (repeat ACK (3 * length (segments start_address data))
                       ++ rest) w tt, u)))
  = fold_left (fun u done => cb done (len data) u)
      (0 :: progress_marks 0
              (map (fun seg => len seg.2) (segments start_address data)))
      u
  /\ last (0 :: progress_marks 0
                  (map (fun seg => len seg.2) (segments start_address data)))
     = Some (len data)
  /\ Sorted Z.lt
       (0 :: progress_marks 0
               (map (fun seg => len seg.2) (segments start_address data))).
Proof.
  intros Hcap Hb Ha Hend. split; [|split].
  - unfold Client.write. case_decide; [done|]. cbv zeta.
    rewrite (bind_returned _ _ _
               (mkLink (repeat ACK (3 * length (segments start_address data))
                        ++ rest) w tt, cb 0 (len data) u) tt) by done.
    by rewrite write_loop_scripted_trace.
  - apply (progress_marks_last start_address data 0).
  - apply progress_marks_sorted, segment_sizes_positive.
Qed.

Lemma write_reports_progress_witness :
  (CmdType.WRITE ∈ _cmd_types (mkClient 0x22 {[CmdType.WRITE]}))
  /\ forallb is_byte (repeat 7 300) = true
  /\ 0 <= 0x08000000
  /\ 0x08000000 + len (repeat 7 300) <= 2 ^ 32
  /\ snd (snd (Client.write (mkClient 0x22 {[CmdType.WRITE]}) 0x08000000
                 (repeat 7 300) (Some recorder)
                 (mkLink (repeat ACK
                            (3 * length (segments 0x08000000 (repeat 7 300)))
                          ++ []) [] tt, [])))
     = [(0, 300); (256, 300); (300, 300)].
Proof.
  assert (Hcap : CmdType.WRITE ∈ _cmd_types (mkClient 0x22 {[CmdType.WRITE]})).
  { simpl. by apply elem_of_singleton. }
  assert (Hb : forallb is_byte (repeat 7 300) = true) by reflexivity.
  assert (Ha : 0 <= 0x08000000) by discriminate.
  assert (Hend : 0x08000000 + len (repeat 7 300) <= 2 ^ 32)
    by (vm_compute; discriminate).
  split; [exact Hcap|]. split; [exact Hb|]. split; [exact Ha|].
  split; [exact Hend|].
  etransitivity.
  - exact (proj1 (write_reports_progress (mkClient 0x22 {[CmdType.WRITE]})
                    0x08000000 (repeat 7 300) recorder [] [] []
                    Hcap Hb Ha Hend)).
  - vm_compute. reflexivity.
Defined.

(** ** A write that is refused *)

Lemma on_link_raised {D U A} (c : M (Link D) A) (l l' : Link D) (u : U)
    (e : exn) :
  c l = (Raised e, l') -> Client.on_link c (l, u) = (Raised e, (l', u)).
Proof. intros Hc. unfold Client.on_link. simpl. by rewrite Hc. Qed.

Lemma write_refused_at_opcode (a b : Z) (chunk rest : list Z)
    (w : list (list Z)) :
  (1 <= length chunk <= 256)%nat -> b <> 0x79 ->
  Connection.write a chunk (mkLink (b :: rest) w tt)
  = (Raised (Exception (if decide (b = 0x1F) then "received NACK"
                        else "received unknown response: 0x" +:+ hex02 b)),
     mkLink rest (w ++ [frame [0x31]]) tt).
Proof.
  intros Hlen Hb. unfold Connection.write. cbv zeta.
  destruct (_ || _) eqn:Hc.
  { apply orb_true_iff in Hc. unfold len in Hc. lia. }
  apply bind_raised. by apply send_refused.
Qed.

Section RefusedWrite.
Context {U : Type}.
Variable progress_cb : option (Z -> Z -> U -> U).
Variable total : Z.
Variable rest : list Z.
Variable b : Z.
Hypothesis refused : b <> 0x79.

Lemma write_loop_refused (pre : list (Z * list Z)) :
  forall (fuel : nat) (data : list Z) (a ws : Z) (w : list (list Z)) (u : U)
         (seg : Z * list Z) (post : list (Z * list Z)),
    segments a data = pre ++ seg :: post ->
    (length data <= fuel)%nat -> forallb is_byte data = true ->
    0 <= a -> a + len data <= 2 ^ 32 ->
    exists u',
      Client.write_loop fuel progress_cb total a data ws
        (mkLink (repeat ACK (3 * length pre) ++ b :: rest) w tt, u)
      = (Raised (Exception (if decide (b = 0x1F) then "received NACK"
                            else "received unknown response: 0x" +:+ hex02 b)),
         (mkLink rest
            (w ++ concat (map (fun seg => wire_write seg.1 seg.2) pre)
               ++ [frame [0x31]]) tt, u')).
Proof.
  induction pre as [|p pre IH];
    intros fuel data a ws w u seg post Hsegs Hfuel Hb Ha Hend.
  - assert (Hne : data <> []) by (intros ->; done).
    assert (Hlen : (1 <= length data)%nat) by (destruct data; [done|simpl; lia]).
    destruct fuel as [|fuel]; [lia|].
    exists u. simpl Client.write_loop. rewrite bool_decide_true by done.
    apply bind_raised. apply on_link_raised.
    rewrite take_segment. apply write_refused_at_opcode; [|done].
    rewrite length_take. lia.
  - assert (Hne : data <> []) by (intros ->; done).
    assert (Hlen : (1 <= length data)%nat) by (destruct data; [done|simpl; lia]).
    destruct fuel as [|fuel]; [lia|].
    rewrite segments_cons in Hsegs by done.
    injection Hsegs as <- Hsegs.
    replace (3 * length ((a, take 256 data) :: pre))%nat
      with (3 + 3 * length pre)%nat by (simpl; lia).
    rewrite repeat_app, <- app_assoc.
    remember (repeat ACK (3 * length pre)) as tail eqn:Htail.
    simpl Client.write_loop. rewrite bool_decide_true by done.
    rewrite take_segment, drop_segment.
    erewrite bind_returned; cycle 1.
    { apply on_link_returned. apply write_scripted.
      - rewrite length_take. lia.
      - rewrite <- (take_drop 256 data), forallb_app in Hb.
        by apply andb_true_iff in Hb as [? ?].
      - unfold len in Hend. lia. }
    assert (Hb' : forallb is_byte (drop 256 data) = true).
    { rewrite <- (take_drop 256 data), forallb_app in Hb.
      by apply andb_true_iff in Hb as [? ?]. }
    assert (Hl : len (drop 256 data) = Z.max 0 (len data - 256)).
    { unfold len. rewrite length_drop. lia. }
    assert (Hn : 0 <= len data) by apply len_nonneg.
    set (u1 := match progress_cb with
               | Some cb => cb (ws + Z.min (len data) 256) total u
               | None => u
               end).
    rewrite <- segments_next in Hsegs.
    destruct (IH fuel (drop 256 data) (a + Z.min (len data) 256)
                (ws + Z.min (len data) 256) (w ++ wire_write a (take 256 data))
                u1 seg post Hsegs)
      as [u' Hloop]; [rewrite length_drop; lia | done | lia | lia |].
    exists u'.
    rewrite map_cons, concat_cons. cbn [fst snd].
    rewrite <- !app_assoc in *. rewrite <- Hloop.
    by destruct progress_cb.
Qed.
End RefusedWrite.

(** X15. When the device refuses the opcode frame of a segment, [write]
    raises at once: the segments before it have been written in full,
    the refused opcode frame once, and nothing after it; the bytes the
    device sent later stay unread. *)
Theorem write_stops_at_refused_segment {U : Type} (self : ClientAttrs)
    (start_address : Z) (data : list Z)
    (progress_cb : option (Z -> Z -> U -> U))
    (pre post : list (Z * list Z)) (seg : Z * list Z) (b : Z)
    (rest : list Z) (w : list (list Z)) (u : U) :
  CmdType.WRITE ∈ _cmd_types self ->
  forallb is_byte data = true ->
  0 <= start_address -> start_address + len data <= 2 ^ 32 ->
  segments start_address data = pre ++ seg :: post ->
  b <> 0x79 ->
  exists u',
    Client.write self start_address data progress_cb
      (mkLink (repeat ACK (3 * length pre) ++ b :: rest) w tt, u)
    = (Raised (Exception (if decide (b = 0x1F) then "received NACK"
                          else "received unknown response: 0x" +:+ hex02 b)),
       (mkLink rest
          (w ++ concat (map (fun seg => wire_write seg.1 seg.2) pre)
             ++ [frame [0x31]]) tt, u')).
Proof.
  intros Hcap Hb Ha Hend Hsegs Hrefused.
  unfold Client.write. case_decide; [done|]. cbv zeta.
  set (u0 := match progress_cb with
             | Some cb => cb 0 (len data) u
             | None => u
             end).
  destruct (write_loop_refused progress_cb (len data) rest b Hrefused pre
              (length data) data start_address 0 w u0 seg post)
    as [u' Hloop]; try done.
  exists u'. rewrite <- Hloop. by destruct progress_cb.
Qed.

Lemma write_stops_at_refused_segment_witness :
  (CmdType.WRITE ∈ _cmd_types (mkClient 0x22 {[CmdType.WRITE]}))
  /\ forallb is_byte (repeat 7 300) = true
  /\ 0 <= 0x08000000
  /\ 0x08000000 + len (repeat 7 300) <= 2 ^ 32
  /\ segments 0x08000000 (repeat 7 300)
     = [(0x08000000, repeat 7 256)] ++ (0x08000100, repeat 7 44) :: []
  /\ NACK <> 0x79
  /\ exists calls,
       Client.write (mkClient 0x22 {[CmdType.WRITE]}) 0x08000000
         (repeat 7 300) (Some recorder)
         (mkLink (repeat ACK (3 * length [(0x08000000, repeat 7 256)])
                  ++ NACK :: [ACK; ACK]) [] tt, [])
       = (Raised (Exception (if decide (NACK = 0x1F) then "received NACK"
                             else "received unknown response: 0x"
                                  +:+ hex02 NACK)),
          (mkLink [ACK; ACK]
             ([] ++ concat (map (fun seg => wire_write seg.1 seg.2)
                                [(0x08000000, repeat 7 256)])
                ++ [frame [0x31]]) tt, calls)).
Proof.
  assert (Hcap : CmdType.WRITE ∈ _cmd_types (mkClient 0x22 {[CmdType.WRITE]})).
  { simpl. by apply elem_of_singleton. }
  assert (Hb : forallb is_byte (repeat 7 300) = true) by reflexivity.
  assert (Ha : 0 <= 0x08000000) by discriminate.
  assert (Hend : 0x08000000 + len (repeat 7 300) <= 2 ^ 32)
    by (vm_compute; discriminate).
  assert (Hsegs : segments 0x08000000 (repeat 7 300)
                  = [(0x08000000, repeat 7 256)]
                      ++ (0x08000100, repeat 7 44) :: [])
    by (vm_compute; reflexivity).
  assert (Hr : NACK <> 0x79) by discriminate.
  split; [exact Hcap|]. split; [exact Hb|]. split; [exact Ha|].
  split; [exact Hend|]. split; [exact Hsegs|]. split; [exact Hr|].
  exact (write_stops_at_refused_segment (mkClient 0x22 {[CmdType.WRITE]})
           0x08000000 (repeat 7 300) (Some recorder)
           [(0x08000000, repeat 7 256)] [] (0x08000100, repeat 7 44) NACK
           [ACK; ACK] [] [] Hcap Hb Ha Hend Hsegs Hr).
Defined.

(** ** A device that serves reads *)

(** *** A device that serves reads *)

Section ServesReads.
Context {D : Type} `{Device D} {U : Type}.
Variables (idle address_phase : D) (length_phase : Z -> D) (memory : Z -> Z).
Hypothesis opcode_served :
  respond idle (frame [0x11]) = (address_phase, [ACK]).
Hypothesis address_served : forall a,
  0 <= a < 2 ^ 32 ->
  respond address_phase (frame (be32 a)) = (length_phase a, [ACK]).
Hypothesis length_served : forall a n,
  1 <= n <= 256 ->
  respond (length_phase a) (frame [n - 1])
  = (idle, ACK :: naive_read memory a n).

Lemma read_served (a n : Z) (w : list (list Z)) :
  1 <= n <= 256 -> 0 <= a < 2 ^ 32 ->
  Connection.read a n (mkLink [] w idle)
  = (Returned (naive_read memory a n), mkLink [] (w ++ wire_read a n) idle).
Proof.
  intros Hn Ha. unfold Connection.read.
  destruct (n >? 256) eqn:Hc; [lia|]. clear Hc.
  change (CmdType.value CmdType.READ) with 0x11.
  erewrite bind_returned; cycle 1.
  { apply (send_acked _ _ []); [done | done |].
    cbn [pending dev]. by rewrite opcode_served. }
  cbn [pending dev]. rewrite opcode_served. cbn [fst].
  rewrite pack_I_be_be32 by done. simpl lift_sum. rewrite bind_ret.
  erewrite bind_returned; cycle 1.
  { apply (send_acked _ _ []); [done | apply be32_bytes |].
    cbn [pending dev]. by rewrite address_served. }
  cbn [pending dev written]. rewrite address_served by done. cbn [fst].
  erewrite bind_returned; cycle 1.
  { apply (send_acked _ _ (naive_read memory a n)).
    - done.
    - simpl. rewrite andb_true_r. apply is_byte_range. lia.
    - cbn [pending dev]. by rewrite length_served. }
  cbn [pending dev written]. rewrite length_served by done. cbn [fst].
  erewrite bind_returned; cycle 1.
  { apply serial_read_all. unfold naive_read. by rewrite length_map, length_seqZ. }
  unfold ret, wire_read. by rewrite <- !app_assoc.
Qed.

Lemma read_loop_served (progress_cb : option (Z -> Z -> U -> U))
    (total : Z) (fuel : nat) :
  forall (size a rs : Z) (acc w : list (list Z)) (u : U),
    (Z.to_nat size <= fuel)%nat -> 0 <= a -> a + Z.max 0 size <= 2 ^ 32 ->
    exists segs w' u',
      Client.read_loop fuel progress_cb total a size rs acc
        (mkLink [] w idle, u)
      = (Returned segs, (mkLink [] w' idle, u'))
      /\ concat segs = concat acc ++ naive_read memory a size.
Proof.
  induction fuel as [|fuel IH]; intros size a rs acc w u Hfuel Ha Hend.
  - exists acc, w, u. rewrite naive_read_nonpos by lia.
    simpl. destruct (size >? 0) eqn:Hs; [lia|]. by rewrite !app_nil_r.
  - destruct (decide (size <= 0)) as [Hs|Hs].
    { exists acc, w, u. rewrite naive_read_nonpos by lia.
      simpl. destruct (size >? 0) eqn:Hs'; [lia|]. by rewrite !app_nil_r. }
    set (k := Z.min size 256).
    set (u1 := match progress_cb with
               | Some cb => cb (rs + k) total u
               | None => u
               end).
    destruct (IH (size - k) (a + k) (rs + k)
                (acc ++ [naive_read memory a k]) (w ++ wire_read a k) u1)
      as (segs & w' & u' & Hloop & Hsegs); [lia | lia | lia |].
    exists segs, w', u'. split.
    + simpl Client.read_loop. destruct (size >? 0) eqn:Hs'; [|lia].
      fold k. erewrite bind_returned; cycle 1.
      { apply on_link_returned. apply read_served; lia. }
      rewrite <- Hloop. by destruct progress_cb.
    + rewrite Hsegs, concat_app. simpl concat. rewrite app_nil_r, <- app_assoc.
      f_equal. rewrite <- naive_read_app by lia. f_equal. lia.
Qed.

Lemma client_read_served (self : ClientAttrs) (a size : Z)
    (progress_cb : option (Z -> Z -> U -> U)) (w : list (list Z)) (u : U) :
  CmdType.READ ∈ _cmd_types self ->
  0 <= a -> 0 <= size -> a + size <= 2 ^ 32 ->
  exists w' u',
    Client.read self a size progress_cb (mkLink [] w idle, u)
    = (Returned (naive_read memory a size), (mkLink [] w' idle, u')).
Proof.
  intros Hcap Ha Hsize Hend. unfold Client.read. case_decide; [done|].
  cbv zeta.
  set (u0 := match progress_cb with
             | Some cb => cb 0 size u
             | None => u
             end).
  destruct (read_loop_served progress_cb size (Z.to_nat size)
              size a 0 [] w u0)
    as (segs & w' & u' & Hloop & Hsegs); [lia | lia | lia |].
  exists w', u'. simpl in Hsegs.
  rewrite (bind_returned _ _ _ (mkLink [] w idle, u0) tt)
    by by destruct progress_cb.
  erewrite bind_returned by exact Hloop.
  unfold ret. by rewrite Hsegs.
Qed.
End ServesReads.

(** ** The writable device *)

Section OnFlash.
Variable memory : Z -> Z.

Lemma flash_read_opcode :
  respond (Flash.mk memory Flash.Idle) (frame [0x11])
  = (Flash.mk memory Flash.ReadAddress, [ACK]).
Proof. reflexivity. Qed.

Lemma flash_write_opcode :
  respond (Flash.mk memory Flash.Idle) (frame [0x31])
  = (Flash.mk memory Flash.WriteAddress, [ACK]).
Proof. reflexivity. Qed.

Lemma flash_read_address (a : Z) :
  0 <= a < 2 ^ 32 ->
  respond (Flash.mk memory Flash.ReadAddress) (frame (be32 a))
  = (Flash.mk memory (Flash.ReadLength a), [ACK]).
Proof.
  intros Ha.
  assert (Hf : frame (be32 a) = be32 a ++ [xor_all (be32 a)])
    by apply frame_long, be32_bytes.
  rewrite Hf.
  unfold respond, Flash.device, Flash.step, be32.
  cbn [Flash.state app]. rewrite Z.eqb_refl.
  unfold Flash.goto, Flash.address_of. cbn [Flash.memory].
  by rewrite be32_value.
Qed.

Lemma flash_write_address (a : Z) :
  0 <= a < 2 ^ 32 ->
  respond (Flash.mk memory Flash.WriteAddress) (frame (be32 a))
  = (Flash.mk memory (Flash.WriteData a), [ACK]).
Proof.
  intros Ha.
  assert (Hf : frame (be32 a) = be32 a ++ [xor_all (be32 a)])
    by apply frame_long, be32_bytes.
  rewrite Hf.
  unfold respond, Flash.device, Flash.step, be32.
  cbn [Flash.state app]. rewrite Z.eqb_refl.
  unfold Flash.goto, Flash.address_of. cbn [Flash.memory].
  by rewrite be32_value.
Qed.

Lemma flash_read_length (a n : Z) :
  1 <= n <= 256 ->
  respond (Flash.mk memory (Flash.ReadLength a)) (frame [n - 1])
  = (Flash.mk memory Flash.Idle, ACK :: naive_read memory a n).
Proof.
  intros Hn. unfold frame, frame_checksum. rewrite complement_byte by lia.
  unfold respond, Flash.device, Flash.step.
  cbn [Flash.state app]. rewrite Z.eqb_refl.
  unfold Flash.goto, naive_read. cbn [Flash.memory].
  by replace (n - 1 + 1) with n by lia.
Qed.

Lemma flash_write_data (a : Z) (chunk : list Z) :
  (1 <= length chunk <= 256)%nat -> forallb is_byte chunk = true ->
  respond (Flash.mk memory (Flash.WriteData a))
    (frame ([len chunk - 1] ++ chunk))
  = (Flash.mk (Flash.store memory a chunk) Flash.Idle, [ACK]).
Proof.
  intros Hlen Hb.
  assert (Hbody : forallb is_byte ([len chunk - 1] ++ chunk) = true).
  { simpl. rewrite Hb, andb_true_r. apply is_byte_range. unfold len. lia. }
  assert (Hf : frame ([len chunk - 1] ++ chunk)
               = (len chunk - 1)
                   :: (chunk ++ [xor_all ((len chunk - 1) :: chunk)])).
  { destruct chunk as [|x xs]; [simpl in Hlen; lia|].
    cbn [app] in *. by rewrite (frame_long _ _ _ Hbody). }
  rewrite Hf.
  unfold respond, Flash.device, Flash.step. cbn [Flash.state].
  rewrite last_snoc, removelast_last.
  rewrite Z.eqb_refl. cbn [andb].
  destruct (_ =? _) eqn:He; [done|]. lia.
Qed.

Lemma write_on_flash (a : Z) (chunk : list Z) (w : list (list Z)) :
  (1 <= length chunk <= 256)%nat -> forallb is_byte chunk = true ->
  0 <= a < 2 ^ 32 ->
  Connection.write a chunk (mkLink [] w (Flash.mk memory Flash.Idle))
  = (Returned tt,
     mkLink [] (w ++ wire_write a chunk)
       (Flash.mk (Flash.store memory a chunk) Flash.Idle)).
Proof.
  intros Hlen Hb Ha. unfold Connection.write. cbv zeta.
  destruct (_ || _) eqn:Hc.
  { apply orb_true_iff in Hc. unfold len in Hc. lia. }
  change (CmdType.value CmdType.WRITE) with 0x31.
  erewrite bind_returned; cycle 1.
  { apply (send_acked _ _ []); [done | done |].
    cbn [pending dev]. by rewrite flash_write_opcode. }
  cbn [pending dev]. rewrite flash_write_opcode. cbn [fst].
  rewrite pack_I_be_be32 by done. simpl lift_sum. rewrite bind_ret.
  erewrite bind_returned; cycle 1.
  { apply (send_acked _ _ []); [done | apply be32_bytes |].
    cbn [pending dev]. by rewrite flash_write_address. }
  cbn [pending dev written]. rewrite flash_write_address by done. cbn [fst].
  assert (Hbody : forallb is_byte ([len chunk - 1] ++ chunk) = true).
  { simpl. rewrite Hb, andb_true_r. apply is_byte_range. unfold len. lia. }
  rewrite (send_acked _ _ []); [|done|done|].
  - cbn [pending dev written]. rewrite flash_write_data by done. cbn [fst].
    unfold wire_write. by rewrite <- !app_assoc.
  - cbn [pending dev]. by rewrite flash_write_data.
Qed.
End OnFlash.

(** ** Write, then read *)

Lemma store_inside (memory : Z -> Z) (a : Z) (data : list Z) (i : nat) (x : Z) :
  data !! i = Some x -> Flash.store memory a data (a + Z.of_nat i) = x.
Proof.
  intros Hi. unfold Flash.store. apply lookup_lt_Some in Hi as Hlt.
  rewrite decide_True by (unfold len; lia).
  replace (Z.to_nat (a + Z.of_nat i - a)) with i by lia. by rewrite Hi.
Qed.

Lemma store_outside (memory : Z -> Z) (a : Z) (data : list Z) (x : Z) :
  ~ (a <= x < a + len data) -> Flash.store memory a data x = memory x.
Proof. intros Hx. unfold Flash.store. by rewrite decide_False. Qed.

Lemma store_segments (a : Z) (data : list Z) :
  forall (memory : Z -> Z) (x : Z),
    fold_left (fun m seg => Flash.store m seg.1 seg.2) (segments a data) memory x
    = Flash.store memory a data x.
Proof.
  apply (segments_ind (fun a data segs => forall memory x,
           fold_left (fun m seg => Flash.store m seg.1 seg.2) segs memory x
           = Flash.store memory a data x)).
  - intros a' memory x. simpl. by rewrite store_outside by (unfold len; simpl; lia).
  - intros a' data' Hne IH memory x. cbn [fold_left fst snd]. rewrite IH.
    assert (Hl : length data' = (length (take 256 data')
                                 + length (drop 256 data'))%nat).
    { by rewrite <- length_app, take_drop. }
    rewrite length_take, length_drop in Hl.
    unfold Flash.store at 1 3. unfold len.
    rewrite length_drop.
    repeat case_decide; try lia.
    + rewrite lookup_drop. do 2 f_equal. lia.
    + unfold Flash.store. unfold len. rewrite length_take.
      rewrite decide_True by lia. rewrite lookup_take_lt by lia. done.
    + unfold Flash.store. unfold len. rewrite length_take.
      rewrite decide_False by lia. done.
Qed.

Lemma naive_read_of_store (memory : Z -> Z) (a : Z) (data : list Z) :
  naive_read (Flash.store memory a data) a (len data) = data.
Proof.
  unfold naive_read. apply list_eq. intros i.
  rewrite list_lookup_fmap.
  destruct (data !! i) as [x|] eqn:Hi.
  - apply lookup_lt_Some in Hi as Hlt.
    rewrite lookup_seqZ_lt by (unfold len; lia). simpl.
    by rewrite (store_inside _ _ _ _ _ Hi).
  - apply lookup_ge_None in Hi.
    rewrite lookup_seqZ_ge by (unfold len; lia). done.
Qed.

Section FlashWrite.
Context {U : Type}.
Variable progress_cb : option (Z -> Z -> U -> U).
Variable total : Z.

Lemma write_loop_on_flash (fuel : nat) :
  forall (data : list Z) (a ws : Z) (w : list (list Z)) (u : U)
         (memory : Z -> Z),
    (length data <= fuel)%nat -> forallb is_byte data = true ->
    0 <= a -> a + len data <= 2 ^ 32 ->
    exists w' u',
      Client.write_loop fuel progress_cb total a data ws
        (mkLink [] w (Flash.mk memory Flash.Idle), u)
      = (Returned tt,
         (mkLink [] w'
            (Flash.mk
               (fold_left (fun m seg => Flash.store m seg.1 seg.2)
                  (segments a data) memory)
               Flash.Idle), u')).
Proof.
  induction fuel as [|fuel IH]; intros data a ws w u memory Hfuel Hb Ha Hend.
  - destruct data; [|simpl in Hfuel; lia]. by exists w, u.
  - destruct (decide (data = [])) as [->|Hne]; [by exists w, u|].
    rewrite segments_cons by done.
    assert (Hlen : (1 <= length data)%nat) by (destruct data; [done|simpl; lia]).
    simpl Client.write_loop. rewrite bool_decide_true by done.
    rewrite take_segment, drop_segment.
    erewrite bind_returned; cycle 1.
    { apply on_link_returned. apply write_on_flash.
      - rewrite length_take. lia.
      - rewrite <- (take_drop 256 data), forallb_app in Hb.
        by apply andb_true_iff in Hb as [? ?].
      - unfold len in Hend. lia. }
    assert (Hb' : forallb is_byte (drop 256 data) = true).
    { rewrite <- (take_drop 256 data), forallb_app in Hb.
      by apply andb_true_iff in Hb as [? ?]. }
    assert (Hl : len (drop 256 data) = Z.max 0 (len data - 256)).
    { unfold len. rewrite length_drop. lia. }
    assert (Hn : 0 <= len data) by apply len_nonneg.
    set (u1 := match progress_cb with
               | Some cb => cb (ws + Z.min (len data) 256) total u
               | None => u
               end).
    destruct (IH (drop 256 data) (a + Z.min (len data) 256)
                (ws + Z.min (len data) 256) (w ++ wire_write a (take 256 data))
                u1 (Flash.store memory a (take 256 data)))
      as (w' & u' & Hloop); [rewrite length_drop; lia | done | lia | lia |].
    exists w', u'. rewrite segments_next in Hloop.
    cbn [fold_left fst snd]. rewrite <- Hloop. by destruct progress_cb.
Qed.
End FlashWrite.

Lemma client_write_on_flash {U : Type} (self : ClientAttrs) (a : Z)
    (data : list Z) (progress_cb : option (Z -> Z -> U -> U))
    (memory : Z -> Z) (w : list (list Z)) (u : U) :
  CmdType.WRITE ∈ _cmd_types self ->
  forallb is_byte data = true -> 0 <= a -> a + len data <= 2 ^ 32 ->
  exists w' u',
    Client.write self a data progress_cb
      (mkLink [] w (Flash.mk memory Flash.Idle), u)
    = (Returned tt,
       (mkLink [] w'
          (Flash.mk
             (fold_left (fun m seg => Flash.store m seg.1 seg.2)
                (segments a data) memory)
             Flash.Idle), u')).
Proof.
  intros Hcap Hb Ha Hend. unfold Client.write. case_decide; [done|]. cbv zeta.
  set (u0 := match progress_cb with
             | Some cb => cb 0 (len data) u
             | None => u
             end).
  destruct (write_loop_on_flash progress_cb (len data) (length data) data a 0
              w u0 memory) as (w' & u' & Hloop); try done.
  exists w', u'. rewrite <- Hloop. by destruct progress_cb.
Qed.

(** X16. Against a device with a writable memory, with WRITE and READ
    in the capability set, [write] of [data] at an address followed by
    [read] of [len(data)] bytes at the same address returns [data],
    whatever its length. *)
Theorem write_then_read_round_trip {U : Type} (self : ClientAttrs)
    (start_address : Z) (data : list Z)
    (write_cb read_cb : option (Z -> Z -> U -> U))
    (memory : Z -> Z) (w : list (list Z)) (u : U) :
  CmdType.WRITE ∈ _cmd_types self -> CmdType.READ ∈ _cmd_types self ->
  forallb is_byte data = true ->
  0 <= start_address -> start_address + len data <= 2 ^ 32 ->
  exists s1 s2,
    Client.write self start_address data write_cb
      (mkLink [] w (Flash.mk memory Flash.Idle), u)
    = (Returned tt, s1)
    /\ Client.read self start_address (len data) read_cb s1
       = (Returned data, s2).
Proof.
  intros Hw Hr Hb Ha Hend.
  destruct (client_write_on_flash self start_address data write_cb memory w u)
    as (w1 & u1 & Hwrite); try done.
  set (memory1 := fold_left (fun m seg => Flash.store m seg.1 seg.2)
                    (segments start_address data) memory) in *.
  destruct (client_read_served
              (Flash.mk memory1 Flash.Idle) (Flash.mk memory1 Flash.ReadAddress)
              (fun a => Flash.mk memory1 (Flash.ReadLength a)) memory1
              (flash_read_opcode memory1) (flash_read_address memory1)
              (flash_read_length memory1)
              self start_address (len data) read_cb w1 u1)
    as (w2 & u2 & Hread); [done | done | apply len_nonneg | done |].
  eexists _, _. split; [exact Hwrite|]. rewrite Hread. do 2 f_equal.
  rewrite <- (naive_read_of_store memory start_address data) at 2.
  unfold naive_read. apply map_ext. intros x. apply store_segments.
Qed.

Lemma write_then_read_round_trip_witness :
  (CmdType.WRITE ∈ _cmd_types (mkClient 0x22 {[CmdType.WRITE; CmdType.READ]}))
  /\ (CmdType.READ ∈ _cmd_types (mkClient 0x22 {[CmdType.WRITE; CmdType.READ]}))
  /\ forallb is_byte (repeat 7 300) = true
  /\ 0 <= 0x08000000
  /\ 0x08000000 + len (repeat 7 300) <= 2 ^ 32
  /\ exists s1 s2,
       Client.write (mkClient 0x22 {[CmdType.WRITE; CmdType.READ]})
         0x08000000 (repeat 7 300) (Some recorder)
         (mkLink [] [] (Flash.mk (fun a => a mod 251) Flash.Idle), [])
       = (Returned tt, s1)
       /\ Client.read (mkClient 0x22 {[CmdType.WRITE; CmdType.READ]})
            0x08000000 (len (repeat 7 300)) None s1
          = (Returned (repeat 7 300), s2).
Proof.
  assert (Hw : CmdType.WRITE
                 ∈ _cmd_types (mkClient 0x22 {[CmdType.WRITE; CmdType.READ]})).
  { simpl. apply elem_of_union_l. by apply elem_of_singleton. }
  assert (Hr : CmdType.READ
                 ∈ _cmd_types (mkClient 0x22 {[CmdType.WRITE; CmdType.READ]})).
  { simpl. apply elem_of_union_r. by apply elem_of_singleton. }
  assert (Hb : forallb is_byte (repeat 7 300) = true) by reflexivity.
  assert (Ha : 0 <= 0x08000000) by discriminate.
  assert (Hend : 0x08000000 + len (repeat 7 300) <= 2 ^ 32)
    by (vm_compute; discriminate).
  split; [exact Hw|]. split; [exact Hr|]. split; [exact Hb|].
  split; [exact Ha|]. split; [exact Hend|].
  exact (write_then_read_round_trip
           (mkClient 0x22 {[CmdType.WRITE; CmdType.READ]}) 0x08000000
           (repeat 7 300) (Some recorder) None (fun a => a mod 251) [] []
           Hw Hr Hb Ha Hend).
Defined.

(** X17. Against a device with a writable memory, [write] of [data] at
    an address leaves the memory holding [data] from that address on and
    unchanged everywhere else. *)
Theorem write_changes_only_its_range {U : Type} (self : ClientAttrs)
    (start_address : Z) (data : list Z)
    (progress_cb : option (Z -> Z -> U -> U))
    (memory : Z -> Z) (w : list (list Z)) (u : U) :
  CmdType.WRITE ∈ _cmd_types self ->
  forallb is_byte data = true ->
  0 <= start_address -> start_address + len data <= 2 ^ 32 ->
  exists s1,
    Client.write self start_address data progress_cb
      (mkLink [] w (Flash.mk memory Flash.Idle), u)
    = (Returned tt, s1)
    /\ (forall i x, data !! i = Some x ->
          Flash.memory (dev s1.1) (start_address + Z.of_nat i) = x)
    /\ (forall a, ~ (start_address <= a < start_address + len data) ->
          Flash.memory (dev s1.1) a = memory a).
Proof.
  intros Hw Hb Ha Hend.
  destruct (client_write_on_flash self start_address data progress_cb memory w u)
    as (w1 & u1 & Hwrite); try done.
  eexists. split; [exact Hwrite|]. cbn [fst dev Flash.memory]. split.
  - intros i x Hi. rewrite store_segments. by apply store_inside.
  - intros a Hout. rewrite store_segments. by apply store_outside.
Qed.

Lemma write_changes_only_its_range_witness :
  (CmdType.WRITE ∈ _cmd_types (mkClient 0x22 {[CmdType.WRITE]}))
  /\ forallb is_byte (repeat 7 300) = true
  /\ 0 <= 0x08000000
  /\ 0x08000000 + len (repeat 7 300) <= 2 ^ 32
  /\ exists s1,
       Client.write (mkClient 0x22 {[CmdType.WRITE]}) 0x08000000
         (repeat 7 300) (Some recorder)
         (mkLink [] [] (Flash.mk (fun a => a mod 251) Flash.Idle), [])
       = (Returned tt, s1)
       /\ (forall i x, repeat 7 300 !! i = Some x ->
             Flash.memory (dev s1.1) (0x08000000 + Z.of_nat i) = x)
       /\ (forall a, ~ (0x08000000 <= a < 0x08000000 + len (repeat 7 300)) ->
             Flash.memory (dev s1.1) a = (fun a => a mod 251) a).
Proof.
  assert (Hcap : CmdType.WRITE ∈ _cmd_types (mkClient 0x22 {[CmdType.WRITE]})).
  { simpl. by apply elem_of_singleton. }
  assert (Hb : forallb is_byte (repeat 7 300) = true) by reflexivity.
  assert (Ha : 0 <= 0x08000000) by discriminate.
  assert (Hend : 0x08000000 + len (repeat 7 300) <= 2 ^ 32)
    by (vm_compute; discriminate).
  split; [exact Hcap|]. split; [exact Hb|]. split; [exact Ha|].
  split; [exact Hend|].
  exact (write_changes_only_its_range (mkClient 0x22 {[CmdType.WRITE]})
           0x08000000 (repeat 7 300) (Some recorder) (fun a => a mod 251)
           [] [] Hcap Hb Ha Hend).
Defined.

(** ** Protection commands and progress reports of a read *)

Lemma opcode_then_ack (op b : Z) (rest : list Z) (w : list (list Z)) :
  is_byte op = true ->
  bind (Connection._send [op]) (fun _ => Connection._receive_ack)
    (mkLink (ACK :: b :: rest) w tt)
  = (if decide (b = 0x79) then Returned tt
     else Raised (Exception
                    (if decide (b = 0x1F) then "received NACK"
                     else "received unknown response: 0x" +:+ hex02 b)),
     mkLink rest (w ++ [frame [op]]) tt).
Proof.
  intros Hop.
  erewrite bind_returned; cycle 1.
  { apply send_scripted; [done|]. simpl. by rewrite Hop. }
  rewrite receive_ack_step. by repeat case_decide.
Qed.

(** X18. With the capability present, [set_protection] for protect-read,
    unprotect-read and unprotect-write writes the one opcode frame and
    waits for two acknowledgements: after the ACK of the frame it reads
    one more byte, returns if it is ACK and raises otherwise. *)
Theorem set_protection_waits_for_two_acks (self : ClientAttrs)
    (kind : Protection.t) (cmd : CmdType.t) (b : Z) (rest : list Z)
    (w : list (list Z)) :
  (kind = Protection.PROTECT_READ /\ cmd = CmdType.PROTECT_READ)
  \/ (kind = Protection.UNPROTECT_READ /\ cmd = CmdType.UNPROTECT_READ)
  \/ (kind = Protection.UNPROTECT_WRITE /\ cmd = CmdType.UNPROTECT_WRITE) ->
  cmd ∈ _cmd_types self ->
  Client.set_protection self kind (mkLink (ACK :: b :: rest) w tt)
  = (if decide (b = 0x79) then Returned tt
     else Raised (Exception
                    (if decide (b = 0x1F) then "received NACK"
                     else "received unknown response: 0x" +:+ hex02 b)),
     mkLink rest (w ++ [frame [CmdType.value cmd]]) tt).
Proof.
  intros Hkind Hcap. unfold Client.set_protection.
  destruct Hkind as [[-> ->]|[[-> ->]|[-> ->]]];
    (case_decide; [done|]); by apply opcode_then_ack.
Qed.

Lemma set_protection_waits_for_two_acks_witness :
  (CmdType.UNPROTECT_WRITE
     ∈ _cmd_types (mkClient 0x22 {[CmdType.UNPROTECT_WRITE]}))
  /\ Client.set_protection (mkClient 0x22 {[CmdType.UNPROTECT_WRITE]})
       Protection.UNPROTECT_WRITE (mkLink [ACK; NACK; ACK] [] tt)
     = (Raised (Exception "received NACK"), mkLink [ACK] [[0x73; 0x8C]] tt).
Proof.
  assert (Hcap : CmdType.UNPROTECT_WRITE
                   ∈ _cmd_types (mkClient 0x22 {[CmdType.UNPROTECT_WRITE]})).
  { simpl. by apply elem_of_singleton. }
  split; [exact Hcap|].
  exact (set_protection_waits_for_two_acks
           (mkClient 0x22 {[CmdType.UNPROTECT_WRITE]})
           Protection.UNPROTECT_WRITE CmdType.UNPROTECT_WRITE NACK [ACK] []
           (or_intror (or_intror (conj eq_refl eq_refl))) Hcap).
Defined.

Section ReadTrace.
Context {D : Type} `{Device D} {U : Type}.
Variables (idle address_phase : D) (length_phase : Z -> D) (memory : Z -> Z).
Hypothesis opcode_served :
  respond idle (frame [0x11]) = (address_phase, [ACK]).
Hypothesis address_served : forall a,
  0 <= a < 2 ^ 32 ->
  respond address_phase (frame (be32 a)) = (length_phase a, [ACK]).
Hypothesis length_served : forall a n,
  1 <= n <= 256 ->
  respond (length_phase a) (frame [n - 1])
  = (idle, ACK :: naive_read memory a n).
Variable cb : Z -> Z -> U -> U.
Variable total : Z.

Lemma read_loop_served_trace (fuel : nat) :
  forall (size a rs : Z) (acc w : list (list Z)) (u : U),
    (Z.to_nat size <= fuel)%nat -> 0 <= a -> a + Z.max 0 size <= 2 ^ 32 ->
    exists r,
      Client.read_loop fuel (Some cb) total a size rs acc
        (mkLink [] w idle, u) = r
      /\ r.2.2
         = fold_left (fun u done => cb done total u)
             (progress_marks rs
                (map (fun seg => len seg.2)
                     (segments a (naive_read memory a size))))
             u.
Proof.
  induction fuel as [|fuel IH]; intros size a rs acc w u Hfuel Ha Hend.
  - eexists. split; [done|]. rewrite naive_read_nonpos by lia.
    simpl. by destruct (size >? 0) eqn:Hs; [lia|].
  - destruct (decide (size <= 0)) as [Hs|Hs].
    { eexists. split; [done|]. rewrite naive_read_nonpos by lia.
      simpl. by destruct (size >? 0) eqn:Hs'; [lia|]. }
    eexists. split; [done|].
    rewrite segments_cons; cycle 1.
    { intros Hnil. apply (f_equal length) in Hnil.
      rewrite naive_read_length in Hnil. simpl in Hnil. lia. }
    rewrite naive_read_take, naive_read_drop by lia.
    set (k := Z.min size 256).
    assert (Hk : len (naive_read memory a k) = k).
    { unfold len. rewrite naive_read_length. lia. }
    rewrite map_cons. cbn [fst snd progress_marks fold_left]. rewrite Hk.
    destruct (IH (size - k) (a + k) (rs + k)
                (acc ++ [naive_read memory a k]) (w ++ wire_read a k)
                (cb (rs + k) total u))
      as (r & Hloop & Hr); [lia | lia | lia |].
    assert (Hnext : segments (a + 256) (naive_read memory (a + k) (size - k))
                    = segments (a + k) (naive_read memory (a + k) (size - k))).
    { destruct (decide (size <= 256)).
      - by rewrite (naive_read_nonpos _ _ (size - k)) by lia.
      - do 2 f_equal. lia. }
    rewrite Hnext, <- Hr, <- Hloop.
    simpl Client.read_loop. destruct (size >? 0) eqn:Hs'; [|lia].
    fold k. erewrite bind_returned; cycle 1.
    { apply on_link_returned.
      apply (read_served idle address_phase length_phase memory); try done; lia. }
    done.
Qed.

End ReadTrace.

(** X19. Against the reference device, a progress callback given to
    [read] is called once with (0, size) and then once after each
    segment with the bytes read so far and size. The reported counts
    increase strictly and the last one is size. *)
Theorem read_reports_progress {U : Type} (self : ClientAttrs)
    (memory : Z -> Z) (chip : list Z) (start_address size : Z)
    (cb : Z -> Z -> U -> U) (w : list (list Z)) (u : U) :
  CmdType.READ ∈ _cmd_types self ->
  0 <= start_address -> 0 <= size -> start_address + size <= 2 ^ 32 ->
  snd (snd (Client.read self start_address size (Some cb)
              (mkLink [] w (Bootloader.mk memory chip Bootloader.Idle), u)))
  = fold_left (fun u done => cb done size u)
      (0 :: progress_marks 0
              (map (fun seg => len seg.2)
                   (segments start_address
                      (naive_read memory start_address size))))
      u
  /\ last (0 :: progress_marks 0
                  (map (fun seg => len seg.2)
                       (segments start_address
                          (naive_read memory start_address size))))
     = Some size
  /\ Sorted Z.lt
       (0 :: progress_marks 0
               (map (fun seg => len seg.2)
                    (segments start_address
                       (naive_read memory start_address size)))).
Proof.
  intros Hcap Ha Hsize Hend. split; [|split].
  - unfold Client.read. case_decide; [done|]. cbv zeta.
    rewrite (bind_returned _ _ _
               (mkLink [] w (Bootloader.mk memory chip Bootloader.Idle),
                cb 0 size u) tt) by done.
    destruct (read_loop_served_trace
                (Bootloader.mk memory chip Bootloader.Idle)
                (Bootloader.mk memory chip Bootloader.ReadAddress)
                (fun a => Bootloader.mk memory chip (Bootloader.ReadLength a))
                memory (respond_read_opcode memory chip)
                (respond_read_address memory chip)
                (respond_read_length memory chip)
                cb size (Z.to_nat size) size start_address 0 [] w
                (cb 0 size u))
      as (r & Hloop & Hr); [lia | lia | lia |].
    cbn [fold_left]. rewrite <- Hr, <- Hloop. unfold bind.
    by destruct (Client.read_loop _ _ _ _ _ _ _ _) as [[segs|e|] s'].
  - rewrite (progress_marks_last start_address
               (naive_read memory start_address size) 0).
    f_equal. unfold len. rewrite naive_read_length. lia.
  - apply progress_marks_sorted, segment_sizes_positive.
Qed.

Lemma read_reports_progress_witness :
  (CmdType.READ ∈ _cmd_types (mkClient 0x22 {[CmdType.READ]}))
  /\ 0 <= 0x08000000
  /\ 0 <= 600
  /\ 0x08000000 + 600 <= 2 ^ 32
  /\ snd (snd (Client.read (mkClient 0x22 {[CmdType.READ]}) 0x08000000 600
                 (Some recorder)
                 (mkLink [] [] (Bootloader.mk (fun a => a mod 251) [0x04; 0x10]
                                  Bootloader.Idle), [])))
     = [(0, 600); (256, 600); (512, 600); (600, 600)].
Proof.
  assert (Hcap : CmdType.READ ∈ _cmd_types (mkClient 0x22 {[CmdType.READ]})).
  { simpl. by apply elem_of_singleton. }
  assert (Ha : 0 <= 0x08000000) by discriminate.
  assert (Hs : 0 <= 600) by discriminate.
  assert (Hend : 0x08000000 + 600 <= 2 ^ 32) by discriminate.
  split; [exact Hcap|]. split; [exact Ha|]. split; [exact Hs|].
  split; [exact Hend|].
  etransitivity.
  - exact (proj1 (read_reports_progress (mkClient 0x22 {[CmdType.READ]})
                    (fun a => a mod 251) [0x04; 0x10] 0x08000000 600 recorder
                    [] [] Hcap Ha Hs Hend)).
  - vm_compute. reflexivity.
Defined.

(** ** Size limits *)

Lemma nve_ret {S A} (a : A) : no_value_error (@ret S A a).
Proof. intros s msg. discriminate. Qed.

Lemma nve_bind {S A B} (c : M S A) (k : A -> M S B) :
  no_value_error c -> (forall a, no_value_error (k a)) ->
  no_value_error (bind c k).
Proof.
  intros Hc Hk s msg. unfold bind. specialize (Hc s msg).
  destruct (c s) as [[a|e|] s']; simpl in *; [apply Hk | | discriminate].
  intros [= ->]. by apply Hc.
Qed.

Lemma nve_bind_ret {S A B} (a : A) (k : A -> M S B) :
  no_value_error (k a) -> no_value_error (bind (ret a) k).
Proof. intros Hk s msg. apply Hk. Qed.

Lemma nve_packed {S B} (a : Z) (k : list Z -> M S B) :
  no_value_error (k (be32 a)) ->
  no_value_error (bind (lift_sum (pack_I_be a)) k).
Proof.
  intros Hk. destruct (decide (0 <= a < 2 ^ 32)) as [Ha|Ha].
  - rewrite pack_I_be_be32 by done. by apply nve_bind_ret.
  - rewrite pack_I_be_out_of_range by lia. intros s msg. discriminate.
Qed.

Section NoValueError.
Context {D : Type} `{Device D}.

Lemma nve_serial_write (data : list Z) :
  no_value_error (serial_write (D:=D) data).
Proof.
  intros l msg. unfold serial_write. by destruct (respond (dev l) data).
Qed.

Lemma nve_serial_read (size : Z) : no_value_error (serial_read (D:=D) size).
Proof. intros l msg. unfold serial_read. by case_match. Qed.

Lemma nve_receive_ack : no_value_error (Connection._receive_ack (D:=D)).
Proof.
  unfold Connection._receive_ack. apply nve_bind; [apply nve_serial_read|].
  intros res s msg. repeat case_decide; [done| |done].
  by destruct res.
Qed.

Lemma nve_send (body : list Z) :
  body <> [] -> forallb is_byte body = true ->
  no_value_error (Connection._send (D:=D) body).
Proof.
  intros Hne Hb. unfold Connection._send.
  rewrite bytes_of_frame by done. apply nve_bind_ret.
  apply nve_bind; [apply nve_serial_write|]. intros _. apply nve_receive_ack.
Qed.

Lemma nve_conn_read (a n : Z) :
  1 <= n <= 256 -> no_value_error (Connection.read (D:=D) a n).
Proof.
  intros Hn. unfold Connection.read. destruct (n >? 256) eqn:Hc; [lia|].
  apply nve_bind; [by apply nve_send|]. intros _.
  apply nve_packed.
  apply nve_bind; [apply nve_send; [done | apply be32_bytes]|]. intros _.
  apply nve_bind.
  { apply nve_send; [done|]. simpl. rewrite andb_true_r.
    apply is_byte_range. lia. }
  intros _. apply nve_bind; [apply nve_serial_read|]. intros data.
  apply nve_ret.
Qed.

Lemma nve_conn_write (a : Z) (chunk : list Z) :
  (1 <= length chunk <= 256)%nat -> forallb is_byte chunk = true ->
  no_value_error (Connection.write (D:=D) a chunk).
Proof.
  intros Hlen Hb. unfold Connection.write. cbv zeta.
  destruct (_ || _) eqn:Hc.
  { apply orb_true_iff in Hc. unfold len in Hc. lia. }
  apply nve_bind; [by apply nve_send|]. intros _.
  apply nve_packed.
  apply nve_bind; [apply nve_send; [done | apply be32_bytes]|]. intros _.
  apply nve_send; [done|].
  simpl. rewrite Hb, andb_true_r. apply is_byte_range. unfold len. lia.
Qed.

Context {U : Type}.

Lemma nve_on_link {A} (c : M (Link D) A) :
  no_value_error c -> no_value_error (Client.on_link (U:=U) c).
Proof.
  intros Hc [l u] msg. unfold Client.on_link. simpl. specialize (Hc l msg).
  by destruct (c l).
Qed.

Lemma nve_progress (progress_cb : option (Z -> Z -> U -> U)) (done total : Z) :
  no_value_error (match progress_cb with
                  | Some cb => Client.call (D:=D) cb done total
                  | None => ret tt
                  end).
Proof. destruct progress_cb; intros s msg; discriminate. Qed.

Lemma nve_read_loop (progress_cb : option (Z -> Z -> U -> U)) (total : Z)
    (fuel : nat) :
  forall a size rs acc,
    no_value_error (Client.read_loop (D:=D) fuel progress_cb total a size rs acc).
Proof.
  induction fuel as [|fuel IH]; intros a size rs acc; simpl.
  - destruct (size >? 0); [|apply nve_ret]. intros s msg. discriminate.
  - destruct (size >? 0) eqn:Hs; [|apply nve_ret].
    apply nve_bind; [apply nve_on_link, nve_conn_read; lia|]. intros seg.
    apply nve_bind; [apply nve_progress|]. intros _. apply IH.
Qed.

Lemma nve_write_loop (progress_cb : option (Z -> Z -> U -> U)) (total : Z)
    (fuel : nat) :
  forall a data ws,
    forallb is_byte data = true ->
    no_value_error (Client.write_loop (D:=D) fuel progress_cb total a data ws).
Proof.
  induction fuel as [|fuel IH]; intros a data ws Hb; simpl.
  - case_bool_decide; [|apply nve_ret]. intros s msg. discriminate.
  - case_bool_decide as Hne; [|apply nve_ret].
    assert (Hlen : (1 <= length data)%nat) by (destruct data; [done|simpl; lia]).
    rewrite take_segment, drop_segment.
    rewrite <- (take_drop 256 data), forallb_app in Hb.
    apply andb_true_iff in Hb as [Hb1 Hb2].
    apply nve_bind.
    { apply nve_on_link, nve_conn_write; [|done]. rewrite length_take. lia. }
    intros _. apply nve_bind; [apply nve_progress|]. intros _. by apply IH.
Qed.

Lemma nve_client_read (self : ClientAttrs) (a size : Z)
    (progress_cb : option (Z -> Z -> U -> U)) :
  no_value_error (Client.read (D:=D) self a size progress_cb).
Proof.
  unfold Client.read. case_decide; [intros s msg; discriminate|].
  apply nve_bind; [apply nve_progress|]. intros _.
  apply nve_bind; [apply nve_read_loop|]. intros segs. apply nve_ret.
Qed.

Lemma nve_client_write (self : ClientAttrs) (a : Z) (data : list Z)
    (progress_cb : option (Z -> Z -> U -> U)) :
  forallb is_byte data = true ->
  no_value_error (Client.write (D:=D) self a data progress_cb).
Proof.
  intros Hb. unfold Client.write. case_decide; [intros s msg; discriminate|].
  apply nve_bind; [apply nve_progress|]. intros _. by apply nve_write_loop.
Qed.
End NoValueError.

(** X20. [Connection.read] checks only the upper limit of the size up
    front: more than 256 bytes raises [ValueError('unsupported size')]
    with the link untouched, while a size of 0 or less is refused by
    [bytes] only after the opcode frame and the address frame have been
    written and acknowledged. [Client.read] meets neither case: whatever
    the device, the address, the size and the callback, it raises no
    [ValueError]. *)
Theorem read_size_limits (start_address size : Z) :
  (256 < size ->
   forall (D : Type) (device : Device D) (l : Link D),
     Connection.read start_address size l
     = (Raised (ValueError "unsupported size"), l))
  /\ (size <= 0 -> 0 <= start_address < 2 ^ 32 ->
      forall (rest : list Z) (w : list (list Z)),
        Connection.read start_address size (mkLink (ACK :: ACK :: rest) w tt)
        = (Raised (ValueError "bytes must be in range(0, 256)"),
           mkLink rest (w ++ [frame [0x11]; frame (be32 start_address)]) tt))
  /\ (forall (D : Type) (device : Device D) (U : Type) (self : ClientAttrs)
             (progress_cb : option (Z -> Z -> U -> U)) (s : Link D * U)
             (msg : string),
        fst (Client.read self start_address size progress_cb s)
        <> Raised (ValueError msg)).
Proof.
  split; [|split].
  - intros Hs D device l. by apply read_above_256.
  - intros Hs Ha rest w. by apply read_not_positive.
  - intros D device U self progress_cb s msg. apply nve_client_read.
Qed.

Lemma read_size_limits_witness :
  256 < 257
  /\ Connection.read 0x08000000 257 (mkLink [ACK; ACK; ACK] [] tt)
     = (Raised (ValueError "unsupported size"), mkLink [ACK; ACK; ACK] [] tt).
Proof.
  assert (Hs : 256 < 257) by reflexivity.
  split; [exact Hs|].
  exact (proj1 (read_size_limits 0x08000000 257) Hs unit scripted
           (mkLink [ACK; ACK; ACK] [] tt)).
Defined.

(** X21. [Connection.write] of no data or of more than 256 bytes raises
    [ValueError('unsupported data')] and leaves the link as it was.
    [Client.write] of a byte string never meets this case: whatever the
    device, the address and the callback, it raises no [ValueError]. *)
Theorem write_size_limits (start_address : Z) (data : list Z) :
  ((length data = 0 \/ 256 < length data)%nat ->
   forall (D : Type) (device : Device D) (l : Link D),
     Connection.write start_address data l
     = (Raised (ValueError "unsupported data"), l))
  /\ (forallb is_byte data = true ->
      forall (D : Type) (device : Device D) (U : Type) (self : ClientAttrs)
             (progress_cb : option (Z -> Z -> U -> U)) (s : Link D * U)
             (msg : string),
        fst (Client.write self start_address data progress_cb s)
        <> Raised (ValueError msg)).
Proof.
  split.
  - intros Hlen D device l. by apply write_out_of_bounds.
  - intros Hb D device U self progress_cb s msg. by apply nve_client_write.
Qed.

Lemma write_size_limits_witness :
  (length (@nil Z) = 0 \/ 256 < length (@nil Z))%nat
  /\ Connection.write 0x08000000 [] (mkLink [ACK; ACK; ACK] [] tt)
     = (Raised (ValueError "unsupported data"), mkLink [ACK; ACK; ACK] [] tt).
Proof.
  assert (Hlen : (length (@nil Z) = 0 \/ 256 < length (@nil Z))%nat)
    by (left; reflexivity).
  split; [exact Hlen|].
  exact (proj1 (write_size_limits 0x08000000 []) Hlen unit scripted
           (mkLink [ACK; ACK; ACK] [] tt)).
Defined.
